(** * TogoMCP: endpoint table, query executor, tool registry, evaluation harness

  A shallow embedding of [togo_mcp/server.py] and of the retry and API-call
  wrappers of [evaluation/scripts/automated_test_runner.py], followed by the
  properties the specification states about them.

  Conventions of the embedding.
  - A Python [str] is a [string]; a character [ascii] stands for the code
    point of the same number (U+0000 to U+00FF), so [str.lower] is the
    Unicode lower-casing of that range.  Display names with other code
    points are the subject of [Wide], where a [str] is a list of code
    points.
  - A Python [dict] with string keys is a [gmap string _].
  - A raised exception is a value of [exn]; code that can raise returns a
    [result].
  - Calls that leave the process (the HTTP POST of the executor, the chat
    API, the clock, [time.sleep]) are answered by an explicit world and
    recorded in an explicit log. *)

From Stdlib Require Import ZArith NArith Ascii String List Bool Lia.
From stdpp Require Import gmap strings list fin_maps.

Local Open Scope string_scope.
#[local] Arguments String.append : simpl nomatch.

(* ===================================================================== *)
(** * Part I: the program *)
(* ===================================================================== *)

(** ** The Python runtime pieces the sources rely on *)

Module Py.

(** The outcome of code that can raise: a value, or an exception of the
    type [E] of exceptions the code can raise. *)
Inductive result (E A : Type) : Type :=
| Ok (a : A)
| Raise (e : E).
Arguments Ok {E A} a.
Arguments Raise {E A} e.

(** *** [str.lower], [str.replace] *)

Definition is_upper (c : ascii) : bool :=
  let n := N_of_ascii c in
  ((65 <=? n) && (n <=? 90) ||
   (192 <=? n) && (n <=? 222) && negb (n =? 215))%N.

Definition char_lower (c : ascii) : ascii :=
  if is_upper c then ascii_of_N (N_of_ascii c + 32) else c.

Fixpoint str_lower (s : string) : string :=
  match s with
  | EmptyString => EmptyString
  | String c s' => String (char_lower c) (str_lower s')
  end.

(** [s.replace(old, new)] for a non-empty [old]: occurrences are found from
    the left and do not overlap; [skip] counts the characters of the current
    occurrence that are still to be dropped. *)
Fixpoint replace_from (old new : string) (skip : nat) (s : string) : string :=
  match s with
  | EmptyString => EmptyString
  | String c s' =>
      match skip with
      | S k => replace_from old new k s'
      | O =>
          if String.prefix old s
          then new ++ replace_from old new (String.length old - 1) s'
          else String c (replace_from old new 0 s')
      end
  end.

(** With an empty [old], Python puts [new] before every character and at
    the end. *)
Fixpoint intersperse_all (new s : string) : string :=
  match s with
  | EmptyString => new
  | String c s' => new ++ String c (intersperse_all new s')
  end.

Definition str_replace (s old new : string) : string :=
  match old with
  | EmptyString => intersperse_all new s
  | _ => replace_from old new 0 s
  end.

End Py.

(** ** [togo_mcp/server.py] *)

Module Server.
Import Py.

(** Exceptions that leave the functions of this module.  [UnpackError n] is
    the [ValueError] that [db_name, endpoint_url = row] raises on a row of
    [n] items, [n] other than 2; [TransportError] stands for the errors of
    httpx when no response arrives, [HTTPStatusError] for the one of
    [raise_for_status], which carries the response. *)
Inductive exn : Type :=
| StopIteration
| ValueError (msg : string)
| UnpackError (got : nat)
| TransportError (msg : string)
| HTTPStatusError (status_code : Z) (text : string).

(** *** The endpoint table *)

(** Line 26: [db_name.lower().replace(' ', '_').replace('-', '')]. *)
Definition canonical_key (db_name : string) : string :=
  str_replace (str_replace (str_lower db_name) " " "_") "-" "".

(** The [for row in reader] loop; [rows] is what [csv.reader] yields. *)
Fixpoint load_rows (rows : list (list string)) (endpoints : gmap string string)
  : result exn (gmap string string) :=
  match rows with
  | [] => Ok endpoints
  | row :: rest =>
      match row with
      | [db_name; endpoint_url] =>
          load_rows rest (<[canonical_key db_name := endpoint_url]> endpoints)
      | _ => Raise (UnpackError (length row))
      end
  end.

(** [next(reader)] drops the header, or raises on an empty file. *)
Definition load_sparql_endpoints (reader : list (list string))
  : result exn (gmap string string) :=
  match reader with
  | [] => Raise StopIteration
  | _header :: rows => load_rows rows ∅
  end.

(** *** The query executor *)

(** What [client.post(url, data=..., headers=...)] puts on the wire. *)
Record request : Type := mk_request {
  req_method : string;
  req_url : string;
  req_data : list (string * string);
  req_headers : list (string * string)
}.

(** What comes back: no response at all (connection, DNS, timeout), or a
    response with a status code and a body. *)
Inductive reply : Type :=
| NoReply (msg : string)
| Reply (status_code : Z) (text : string).

(** The part of the world the executor touches: how the network answers,
    and the requests issued so far, oldest first. *)
Record net : Type := mk_net {
  answer : request -> reply;
  sent : list request
}.

Definition post (w : net) (rq : request) : reply * net :=
  (answer w rq, {| answer := answer w; sent := sent w ++ [rq] |}).

(** [response.is_success] of httpx. *)
Definition is_success (status_code : Z) : bool :=
  ((200 <=? status_code) && (status_code <=? 299))%Z.

Definition raise_for_status (status_code : Z) (text : string) : result exn unit :=
  if is_success status_code then Ok tt
  else Raise (HTTPStatusError status_code text).

(** Lines 35 to 52. *)
Definition execute_sparql (SPARQL_ENDPOINT : gmap string string)
    (sparql_query dbname : string) (w : net) : result exn string * net :=
  match SPARQL_ENDPOINT !! dbname with
  | None => (Raise (ValueError ("Unknown database: " ++ dbname)), w)
  | Some url =>
      let rq := {| req_method := "POST";
                   req_url := url;
                   req_data := [("query", sparql_query)];
                   req_headers := [("Accept", "text/csv")] |} in
      match post w rq with
      | (NoReply msg, w') => (Raise (TransportError msg), w')
      | (Reply status_code text, w') =>
          match raise_for_status status_code text with
          | Raise e => (Raise e, w')
          | Ok _ => (Ok text, w')
          end
      end
  end.

(** *** The tool registry *)

Inductive origin : Type := HandWritten | SchemaGenerated.

(** A tool as the registry sees it: the key it is filed under, where it
    comes from, and the operation (schema operation id, or function name)
    its invocation performs. *)
Record Tool : Type := mk_Tool {
  tool_key : string;
  tool_origin : origin;
  tool_operation : string
}.

(** The [on_duplicate_tools] setting of a FastMCP server. *)
Inductive DuplicateBehavior : Type := Warn | Error | Replace | Ignore.

Record FastMCP : Type := mk_FastMCP {
  server_name : string;
  on_duplicate_tools : DuplicateBehavior;
  tools : gmap string Tool
}.

(** [FastMCP(name)]: no tools, default duplicate behaviour. *)
Definition FastMCP_new (name : string) : FastMCP :=
  {| server_name := name; on_duplicate_tools := Warn; tools := ∅ |}.

Definition set_tool (mcp : FastMCP) (t : Tool) : FastMCP :=
  {| server_name := server_name mcp;
     on_duplicate_tools := on_duplicate_tools mcp;
     tools := <[tool_key t := t]> (tools mcp) |}.

(** [mcp.add_tool(tool)] of the FastMCP library: a free key is bound; a taken
    key is handled by the server's duplicate behaviour.  [Error] is the
    [register] of the specification, which refuses a name in use. *)
Definition add_tool (mcp : FastMCP) (t : Tool) : result exn FastMCP :=
  match tools mcp !! tool_key t with
  | None => Ok (set_tool mcp t)
  | Some _ =>
      match on_duplicate_tools mcp with
      | Warn | Replace => Ok (set_tool mcp t)
      | Error => Raise (ValueError ("Tool already exists: " ++ tool_key t))
      | Ignore => Ok mcp
      end
  end.

(** Lines 79 and 80, [for key in togoid_tools: mcp.add_tool(togoid_tools[key])]:
    the values of the dict are visited in its order, and the first
    exception ends the loop.  The second component is the registry as the
    loop leaves it. *)
Fixpoint merge_tools (mcp : FastMCP) (togoid_tools : list Tool)
  : option exn * FastMCP :=
  match togoid_tools with
  | [] => (None, mcp)
  | t :: rest =>
      match add_tool mcp t with
      | Raise e => (Some e, mcp)
      | Ok mcp' => merge_tools mcp' rest
      end
  end.

(** Lines 66 to 74. *)
Definition mcp_names : gmap string string :=
  list_to_map
    [ ("getAllDataset", "togoId_getAllDataset");
      ("getDataset", "togoId_getDataset");
      ("getAllRelation", "togoId_getAllRelation");
      ("getRelation", "togoId_getRelation");
      ("convertId", "togoId_convertId");
      ("countId", "togoId_countId");
      ("getDescription", "togoId_getDescription") ].

(** Modelled from the spec: the schema-derived generator
    ([FastMCP.from_openapi]) is not part of the sources.  Following section
    4.3, each operation of the schema gives one descriptor, named by the
    rename map when the map has the operation identifier and by the
    identifier itself otherwise.  A schema is here the list of its
    operation identifiers. *)
Definition generated_name (renameMap : gmap string string) (operation_id : string)
  : string :=
  match renameMap !! operation_id with
  | Some alternate => alternate
  | None => operation_id
  end.

(** Modelled from the spec: the descriptor the generator produces for one
    operation of the schema (section 4.3). *)
Definition generate_tool (renameMap : gmap string string) (operation_id : string)
  : Tool :=
  {| tool_key := generated_name renameMap operation_id;
     tool_origin := SchemaGenerated;
     tool_operation := operation_id |}.

(** Modelled from the spec: [generate(schemaDocument, client, renameMap)] of
    section 4.3, one descriptor per operation, in the order of the schema. *)
Definition from_openapi (openapi_spec : list string) (renameMap : gmap string string)
  : list Tool :=
  map (generate_tool renameMap) openapi_spec.

(** Lines 55 to 80: the primary server after the start-up merge. *)
Definition startup (openapi_spec : list string) : option exn * FastMCP :=
  let mcp := FastMCP_new "TogoMCP: RDF Portal MCP Server" in
  let togoid_tools := from_openapi openapi_spec mcp_names in
  merge_tools mcp togoid_tools.

End Server.

(** ** [evaluation/scripts/automated_test_runner.py] *)

Module Harness.
Import Py.

(** *** Values *)

(** Floats are kept symbolic: the [n]-th reading of [time.time()], a
    literal, or a difference of two floats. *)
Inductive pyfloat : Type :=
| Clock (reading : nat)
| FLit (literal : string)
| FSub (a b : pyfloat).

#[local] Unset Elimination Schemes.
Inductive pyval : Type :=
| VNone
| VBool (b : bool)
| VInt (z : Z)
| VFloat (x : pyfloat)
| VStr (s : string)
| VList (items : list pyval)
| VDict (entries : gmap string pyval).
#[local] Set Elimination Schemes.

(** Truth value of an object in an [if].  The code tests a flag and a list
    of servers only; the floats of this model, which the code never tests,
    count as non-zero. *)
Definition truthy (v : pyval) : bool :=
  match v with
  | VNone => false
  | VBool b => b
  | VInt z => negb (z =? 0)%Z
  | VFloat _ => true
  | VStr s => negb (String.eqb s "")
  | VList items => match items with [] => false | _ => true end
  | VDict entries => match map_to_list entries with [] => false | _ => true end
  end.

(** [sep.join(parts)]. *)
Fixpoint str_join (sep : string) (parts : list string) : string :=
  match parts with
  | [] => ""
  | [p] => p
  | p :: rest => p ++ sep ++ str_join sep rest
  end.

(** An exception in the harness: an instance of [Exception] or of one of its
    subclasses, given by the name of its class and by its message [str(e)],
    or one of the two exceptions that derive from [BaseException] only. *)
Inductive exn : Type :=
| Exception_ (cls msg : string)
| KeyboardInterrupt
| SystemExit.

(** [isinstance(e, Exception)]. *)
Definition is_Exception (e : exn) : bool :=
  match e with
  | Exception_ _ _ => true
  | KeyboardInterrupt | SystemExit => false
  end.

(** [str(e)]. *)
Definition exn_str (e : exn) : string :=
  match e with
  | Exception_ _ msg => msg
  | KeyboardInterrupt | SystemExit => ""
  end.

Definition UnboundLocalError (var : string) : exn :=
  Exception_ "UnboundLocalError"
    ("cannot access local variable '" ++ var ++
     "' where it is not associated with a value").

Definition KeyError (key : string) : exn :=
  Exception_ "KeyError" ("'" ++ key ++ "'").

Definition ValueError (msg : string) : exn := Exception_ "ValueError" msg.

(** *** Configuration *)

Record config : Type := mk_config {
  model : string;
  max_tokens : Z;
  temperature : pyfloat;
  baseline_system_prompt : string;
  togomcp_system_prompt : string;
  timeout : Z;
  retry_attempts : Z;
  retry_delay : Z
}.

(** Lines 53 to 69. *)
Definition default_config : config :=
  {| model := "claude-sonnet-4-20250514";
     max_tokens := 4000;
     temperature := FLit "1.0";
     baseline_system_prompt :=
       "Answer using only your training knowledge. " ++
       "Do not use any database tools or external resources. " ++
       "If you don't know something with certainty, say so.";
     togomcp_system_prompt :=
       "You have access to biological databases through MCP tools. " ++
       "Use them when they would improve the accuracy or completeness of your answer.";
     timeout := 60;
     retry_attempts := 3;
     retry_delay := 2 |}.

(** The entries a configuration file may carry; an absent entry keeps the
    default ([default_config.update(user_config)]). *)
Record user_config : Type := mk_user_config {
  u_model : option string;
  u_max_tokens : option Z;
  u_temperature : option pyfloat;
  u_baseline_system_prompt : option string;
  u_togomcp_system_prompt : option string;
  u_timeout : option Z;
  u_retry_attempts : option Z;
  u_retry_delay : option Z
}.

Definition update (d : config) (u : user_config) : config :=
  {| model := default (model d) (u_model u);
     max_tokens := default (max_tokens d) (u_max_tokens u);
     temperature := default (temperature d) (u_temperature u);
     baseline_system_prompt :=
       default (baseline_system_prompt d) (u_baseline_system_prompt u);
     togomcp_system_prompt :=
       default (togomcp_system_prompt d) (u_togomcp_system_prompt u);
     timeout := default (timeout d) (u_timeout u);
     retry_attempts := default (retry_attempts d) (u_retry_attempts u);
     retry_delay := default (retry_delay d) (u_retry_delay u) |}.

(** Lines 51 to 76; [None] when there is no configuration file. *)
Definition _load_config (config_file : option user_config) : config :=
  match config_file with
  | Some user_config => update default_config user_config
  | None => default_config
  end.

(** *** The world of the harness *)

Inductive block : Type :=
| TextBlock (text : string)
| ToolUseBlock (name : string) (input : pyval)
| OtherBlock (type : string).

Record response : Type := mk_response {
  content : list block;
  stop_reason : pyval;
  input_tokens : Z;
  output_tokens : Z
}.

(** How one call of [client.messages.create] ends. *)
Inductive outcome : Type :=
| Returns (r : response)
| Raises (e : exn).

Inductive event : Type :=
| EvCreate (kwargs : gmap string pyval)
| EvRetryNotice (attempt_number delay : Z)
| EvSleep (seconds : Z).

(** [api k] is how the [k]-th call of the chat API ends; [calls] and
    [reads] count the API calls and the clock readings made so far; [log]
    lists what the harness did, oldest first. *)
Record world : Type := mk_world {
  api : nat -> outcome;
  calls : nat;
  reads : nat;
  log : list event
}.

(** State and exception monad over the world. *)
Definition M (A : Type) : Type := world -> result exn A * world.

Definition ret {A} (a : A) : M A := fun w => (Ok a, w).
Definition raise {A} (e : exn) : M A := fun w => (Raise e, w).
Definition bind {A B} (c : M A) (k : A -> M B) : M B :=
  fun w => match c w with
           | (Ok a, w') => k a w'
           | (Raise e, w') => (Raise e, w')
           end.

(** [try: body except Exception as e: handler(e)]. *)
Definition try_except_Exception {A} (body : M A) (handler : exn -> M A) : M A :=
  fun w => match body w with
           | (Raise e, w') =>
               if is_Exception e then handler e w' else (Raise e, w')
           | done => done
           end.

Notation "x <- c ;; k" := (bind c (fun x => k))
  (at level 100, c at next level, right associativity).
Notation "c ;;; k" := (bind c (fun _ => k))
  (at level 100, right associativity).

Definition time_time : M pyfloat :=
  fun w => (Ok (Clock (reads w)),
            {| api := api w; calls := calls w; reads := S (reads w); log := log w |}).

Definition emit (ev : event) : M unit :=
  fun w => (Ok tt,
            {| api := api w; calls := calls w; reads := reads w;
               log := log w ++ [ev] |}).

Definition messages_create (kwargs : gmap string pyval) : M response :=
  fun w =>
    let w' := {| api := api w; calls := S (calls w); reads := reads w;
                 log := log w ++ [EvCreate kwargs] |} in
    match api w (calls w) with
    | Returns r => (Ok r, w')
    | Raises e => (Raise e, w')
    end.

(** [time.sleep] refuses a negative length. *)
Definition time_sleep (seconds : Z) : M unit :=
  if (seconds <? 0)%Z then raise (ValueError "sleep length must be non-negative")
  else emit (EvSleep seconds).

(** *** [TestRunner._make_api_call] *)

Definition text_content (blocks : list block) : list string :=
  flat_map (fun b => match b with TextBlock text => [text] | _ => [] end) blocks.

Definition tool_uses (blocks : list block) : list pyval :=
  flat_map (fun b => match b with
                     | ToolUseBlock name input =>
                         [VDict (<["name" := VStr name]> (<["input" := input]> ∅))]
                     | _ => []
                     end) blocks.

Definition base_kwargs (cfg : config) (question system_prompt : string)
  : gmap string pyval :=
  <["model" := VStr (model cfg)]>
  (<["max_tokens" := VInt (max_tokens cfg)]>
  (<["temperature" := VFloat (temperature cfg)]>
  (<["system" := VStr system_prompt]>
  (<["messages" :=
      VList [VDict (<["role" := VStr "user"]> (<["content" := VStr question]> ∅))]]>
   ∅)))).

Definition success_dict (r : response) (elapsed_time : pyfloat) : gmap string pyval :=
  <["success" := VBool true]>
  (<["text" := VStr (str_join (String "010" "") (text_content (content r)))]>
  (<["tool_uses" := VList (tool_uses (content r))]>
  (<["elapsed_time" := VFloat elapsed_time]>
  (<["stop_reason" := stop_reason r]>
  (<["usage" :=
      VDict (<["input_tokens" := VInt (input_tokens r)]>
             (<["output_tokens" := VInt (output_tokens r)]> ∅))]>
   ∅))))).

Definition failure_dict (e : exn) (elapsed_time : pyfloat) : gmap string pyval :=
  <["success" := VBool false]>
  (<["error" := VStr (exn_str e)]>
  (<["elapsed_time" := VFloat elapsed_time]> ∅)).

(** Lines 94 to 162. *)
Definition _make_api_call (cfg : config) (question system_prompt : string)
    (use_tools : bool) (mcp_servers : pyval) : M (gmap string pyval) :=
  start_time <- time_time ;;
  let kwargs := base_kwargs cfg question system_prompt in
  let kwargs :=
    if use_tools && truthy mcp_servers
    then <["mcp_servers" := mcp_servers]> kwargs else kwargs in
  try_except_Exception
    (response <- messages_create kwargs ;;
     now <- time_time ;;
     ret (success_dict response (FSub now start_time)))
    (fun e =>
       now <- time_time ;;
       ret (failure_dict e (FSub now start_time))).

(** *** [TestRunner._run_with_retry] *)

Definition range (n : Z) : list Z := map Z.of_nat (seq 0 (Z.to_nat n)).

(** The body of the [for] loop over the attempts still to run; [result]
    is the local variable of that name, unbound before the first pass. *)
Fixpoint retry_loop (cfg : config) (call : M (gmap string pyval))
    (attempts : list Z) (result : option (gmap string pyval))
  : M (gmap string pyval) :=
  match attempts with
  | [] =>
      match result with
      | Some r => ret r
      | None => raise (UnboundLocalError "result")
      end
  | attempt :: rest =>
      r <- call ;;
      match r !! "success" with
      | None => raise (KeyError "success")
      | Some ok =>
          if truthy ok then ret r
          else
            (if (attempt <? retry_attempts cfg - 1)%Z
             then emit (EvRetryNotice (attempt + 1) (retry_delay cfg)) ;;;
                  time_sleep (retry_delay cfg)
             else ret tt) ;;;
            retry_loop cfg call rest (Some r)
      end
  end.

(** Lines 164 to 176. *)
Definition _run_with_retry (cfg : config) (question system_prompt : string)
    (use_tools : bool) (mcp_servers : pyval) : M (gmap string pyval) :=
  retry_loop cfg (_make_api_call cfg question system_prompt use_tools mcp_servers)
    (range (retry_attempts cfg)) None.

End Harness.

(** ** Vocabulary of the statements about the endpoint table *)

Module KeySpec.
Import Py Server.

(** The image of a string under a map from characters to strings. *)
Fixpoint map_chars (f : ascii -> string) (s : string) : string :=
  match s with
  | EmptyString => EmptyString
  | String c s' => f c ++ map_chars f s'
  end.

Fixpoint all_chars (p : ascii -> bool) (s : string) : bool :=
  match s with
  | EmptyString => true
  | String c s' => p c && all_chars p s'
  end.

Definition single (c : ascii) : string := String c EmptyString.

(** What the loader does to one character of a display name: a space becomes
    an underscore, a hyphen disappears, anything else is lower-cased. *)
Definition key_char (c : ascii) : string :=
  if Ascii.eqb c " " then "_"
  else if Ascii.eqb c "-" then ""
  else single (char_lower c).

(** The key as the specification words it: lower-cased, with spaces and
    hyphens both removed. *)
Definition stripped_char (c : ascii) : string :=
  if Ascii.eqb c " " then ""
  else if Ascii.eqb c "-" then ""
  else single (char_lower c).

Definition stripped_key (name : string) : string := map_chars stripped_char name.

(** A character allowed in a key: not upper-case, not a space, not a hyphen. *)
Definition key_safe (c : ascii) : bool :=
  negb (is_upper c) && negb (Ascii.eqb c " ") && negb (Ascii.eqb c "-").

Definition two_columns (row : list string) : Prop := length row = 2%nat.

(** The URL of the last row of [rows] whose display name has key [k]. *)
Fixpoint last_url (k : string) (rows : list (list string)) : option string :=
  match rows with
  | [] => None
  | row :: rest =>
      match last_url k rest with
      | Some url => Some url
      | None =>
          match row with
          | [name; url] => if String.eqb (canonical_key name) k then Some url else None
          | _ => None
          end
      end
  end.

End KeySpec.

(** ** The registry of the specification *)

Module SpecRegistry.
Import Py Server.

(** Modelled from the spec: the error of [register] and [registerAll]
    (section 4.4), [NameCollision], with the name that is in use.  The
    registry that decides what a collision does is the FastMCP library's; it
    is not part of the sources, which only call it (lines 79 and 80). *)
Inductive RegistryError : Type :=
| NameCollision (name : string).

(** Modelled from the spec: [register(descriptor) -> void |
    Error(NameCollision)] of section 4.4 on the [ToolRegistry] of section 3,
    "the aggregate mapping from name to ToolDescriptor".  Every registered
    name is unique, and a second descriptor under a name in use is rejected. *)
Definition register (registry : gmap string Tool) (descriptor : Tool)
  : result RegistryError (gmap string Tool) :=
  match registry !! tool_key descriptor with
  | Some _ => Raise (NameCollision (tool_key descriptor))
  | None => Ok (<[tool_key descriptor := descriptor]> registry)
  end.

(** Modelled from the spec: the descriptors of a batch registered one after
    the other into the registry [building], up to the first collision. *)
Fixpoint register_each (building : gmap string Tool) (descriptors : list Tool)
  : result RegistryError (gmap string Tool) :=
  match descriptors with
  | [] => Ok building
  | descriptor :: rest =>
      match register building descriptor with
      | Raise e => Raise e
      | Ok building' => register_each building' rest
      end
  end.

(** Modelled from the spec: [registerAll(descriptors) -> void |
    Error(NameCollision)] of section 4.4, "fail the whole batch on first
    collision (atomic merge) rather than registering a partial set".  The
    result is the error, if any, and the registry after the call: the one the
    call started from when a registration collided, and otherwise the one
    that holds the whole batch. *)
Definition registerAll (registry : gmap string Tool) (descriptors : list Tool)
  : option RegistryError * gmap string Tool :=
  match register_each registry descriptors with
  | Raise e => (Some e, registry)
  | Ok complete => (None, complete)
  end.

End SpecRegistry.

(** ** Vocabulary of the statements about the registry *)

Module RegistrySpec.
Import Py Server.

(** The last descriptor of [batch] filed under [key]. *)
Fixpoint last_with_key (key : string) (batch : list Tool) : option Tool :=
  match batch with
  | [] => None
  | t :: rest =>
      match last_with_key key rest with
      | Some t' => Some t'
      | None => if String.eqb (tool_key t) key then Some t else None
      end
  end.

End RegistrySpec.

(** ** Vocabulary of the statements about the harness *)

Module HarnessSpec.
Import Py Harness.

(** The keyword arguments [_make_api_call] passes to the chat API. *)
Definition request_kwargs (cfg : config) (question system_prompt : string)
    (use_tools : bool) (mcp_servers : pyval) : gmap string pyval :=
  if use_tools && truthy mcp_servers
  then <["mcp_servers" := mcp_servers]> (base_kwargs cfg question system_prompt)
  else base_kwargs cfg question system_prompt.

(** The dictionary [_make_api_call] builds for an outcome of the API call. *)
Definition attempt_dict (o : outcome) (elapsed_time : pyfloat) : gmap string pyval :=
  match o with
  | Returns r => success_dict r elapsed_time
  | Raises e => failure_dict e elapsed_time
  end.

Definition succeeded (o : outcome) : Prop := exists r, o = Returns r.

Definition failed (o : outcome) : Prop :=
  exists e, o = Raises e /\ is_Exception e = true.

(** What the log gains from [k] failed attempts that are each followed by
    another attempt, the first of them being attempt number [attempt] of the
    loop: the call, the notice, the sleep. *)
Fixpoint failed_rounds (kwargs : gmap string pyval) (delay : Z) (attempt : Z) (k : nat)
  : list event :=
  match k with
  | O => []
  | S k' =>
      [EvCreate kwargs; EvRetryNotice (attempt + 1) delay; EvSleep delay]
      ++ failed_rounds kwargs delay (attempt + 1) k'
  end.

(** Among [n] attempts whose calls are numbered from [from], the index of the
    attempt that is the last one made: the first that succeeds, or else the
    [n]-th. *)
Fixpoint stop_index (api : nat -> outcome) (from n : nat) : nat :=
  match n with
  | O => O
  | S n' =>
      match api from with
      | Returns _ => O
      | Raises _ =>
          match n' with
          | O => O
          | S _ => S (stop_index api (S from) n')
          end
      end
  end.

End HarnessSpec.

(** ** Further vocabulary: tables, requests *)

Module TableSpec.
Import Py Server.

(** The key under which the loader files a row. *)
Definition row_key (row : list string) : string :=
  match row with
  | name :: _ => canonical_key name
  | [] => ""
  end.

(** How often the character [c] occurs in [s]. *)
Fixpoint count_char (c : ascii) (s : string) : nat :=
  match s with
  | EmptyString => O
  | String x s' => (if Ascii.eqb x c then 1 else 0) + count_char c s'
  end.

(** The request [execute_sparql] builds for a query and a resolved URL. *)
Definition sparql_request (url sparql_query : string) : request :=
  {| req_method := "POST";
     req_url := url;
     req_data := [("query", sparql_query)];
     req_headers := [("Accept", "text/csv")] |}.

End TableSpec.

(** ** [automated_test_runner.py]: the two kinds of test *)

Module Runner.
Import Py Harness.

(** Lines 178 to 192: [use_tools=False], and [mcp_servers] keeps its default
    [None]. *)
Definition run_baseline_test (cfg : config) (question_text : string)
  : M (gmap string pyval) :=
  _run_with_retry cfg question_text (baseline_system_prompt cfg) false VNone.

(** Lines 211 to 217. *)
Definition default_mcp_servers : pyval :=
  VList [VDict (<["type" := VStr "url"]>
                (<["url" := VStr "https://togomcp.rdfportal.org/mcp"]>
                (<["name" := VStr "TogoMCP"]> ∅)))].

(** Lines 194 to 224; [mcp_servers] is [VNone] when the caller passes none. *)
Definition run_togomcp_test (cfg : config) (question_text : string)
    (mcp_servers : pyval) : M (gmap string pyval) :=
  let mcp_servers :=
    match mcp_servers with
    | VNone => default_mcp_servers
    | _ => mcp_servers
    end in
  _run_with_retry cfg question_text (togomcp_system_prompt cfg) true mcp_servers.

End Runner.

(** ** Vocabulary of the statements about logs *)

Module LogSpec.
Import Py Harness.

(** The keyword arguments of the API calls of a log, in order. *)
Definition created (evs : list event) : list (gmap string pyval) :=
  flat_map (fun ev => match ev with EvCreate kwargs => [kwargs] | _ => [] end) evs.

(** The lengths of the sleeps of a log, in order. *)
Definition slept (evs : list event) : list Z :=
  flat_map (fun ev => match ev with EvSleep seconds => [seconds] | _ => [] end) evs.

End LogSpec.

(** ** [server.py] again: the endpoint table with the order of its keys *)

Module OrderedTable.
Import Py Server.

(** A Python [dict] keeps its keys in the order of their first insertion, and
    an assignment to a key that is present keeps the place of the key.  Here
    the dict is the list of its items, oldest key first. *)
Fixpoint dict_set (d : list (string * string)) (k v : string)
  : list (string * string) :=
  match d with
  | [] => [(k, v)]
  | (k', v') :: d' =>
      if String.eqb k' k then (k, v) :: d' else (k', v') :: dict_set d' k v
  end.

(** Lines 24 to 27, with the order of the keys. *)
Fixpoint load_rows_items (rows : list (list string)) (endpoints : list (string * string))
  : result exn (list (string * string)) :=
  match rows with
  | [] => Ok endpoints
  | row :: rest =>
      match row with
      | [db_name; endpoint_url] =>
          load_rows_items rest (dict_set endpoints (canonical_key db_name) endpoint_url)
      | _ => Raise (UnpackError (length row))
      end
  end.

(** Lines 18 to 28, with the order of the keys. *)
Definition load_sparql_endpoints_items (reader : list (list string))
  : result exn (list (string * string)) :=
  match reader with
  | [] => Raise StopIteration
  | _header :: rows => load_rows_items rows []
  end.

(** Line 32. *)
Definition DBNAME_DESCRIPTION (SPARQL_ENDPOINT : list (string * string)) : string :=
  "Database name: One of " ++ Harness.str_join ", " (map fst SPARQL_ENDPOINT).

(** The elements of a list in the order of their first occurrence. *)
Fixpoint first_occurrences (l : list string) : list string :=
  match l with
  | [] => []
  | x :: l' => x :: filter (fun y => y <> x) (first_occurrences l')
  end.

End OrderedTable.

(** ** [server.py] again: display names beyond U+00FF *)

Module Wide.
Import Py Server.

(** The table file is read as UTF-8 (line 21), so a display name can hold any
    code point.  Here a [str] is the list of its code points, and the case
    tables cover three blocks: Basic Latin and Latin-1 Supplement (U+0000 to
    U+00FF) and Letterlike Symbols (U+2100 to U+214F).  On a code point of
    another block [is_upper] and [char_lower] are [None]: the tables do not
    cover it.  Inside these blocks [str.lower] works one character at a time
    and gives one character for each. *)
Definition in_latin1 (c : N) : bool := (c <=? 0xFF)%N.

Definition in_letterlike (c : N) : bool := ((0x2100 <=? c) && (c <=? 0x214F))%N.

Definition latin1_upper (c : N) : bool :=
  ((65 <=? c) && (c <=? 90) || (192 <=? c) && (c <=? 222) && negb (c =? 215))%N.

(** The upper-case characters of the block Letterlike Symbols. *)
Definition letterlike_upper : list N :=
  [0x2102; 0x2107; 0x210B; 0x210C; 0x210D; 0x2110; 0x2111; 0x2112; 0x2115;
   0x2119; 0x211A; 0x211B; 0x211C; 0x211D; 0x2124; 0x2126; 0x2128; 0x212A;
   0x212B; 0x212C; 0x212D; 0x2130; 0x2131; 0x2132; 0x2133; 0x213E; 0x213F;
   0x2145]%N.

(** [str.isupper] on one character. *)
Definition is_upper (c : N) : option bool :=
  if in_latin1 c then Some (latin1_upper c)
  else if in_letterlike c then Some (existsb (N.eqb c) letterlike_upper)
  else None.

(** [str.lower] on one character.  Of the upper-case letterlike symbols only
    the ohm sign, the kelvin sign, the angstrom sign and the turned capital F
    have a lower-case form; the others stay as they are. *)
Definition char_lower (c : N) : option N :=
  if in_latin1 c then Some (if latin1_upper c then c + 32 else c)%N
  else if in_letterlike c then
    Some (if c =? 0x2126 then 0x3C9
          else if c =? 0x212A then 0x6B
          else if c =? 0x212B then 0xE5
          else if c =? 0x2132 then 0x214E
          else c)%N
  else None.

Fixpoint str_lower (s : list N) : option (list N) :=
  match s with
  | [] => Some []
  | c :: s' =>
      match char_lower c, str_lower s' with
      | Some c', Some lowered => Some (c' :: lowered)
      | _, _ => None
      end
  end.

Fixpoint starts_with (old s : list N) : bool :=
  match old, s with
  | [], _ => true
  | x :: old', y :: s' => (x =? y)%N && starts_with old' s'
  | _ :: _, [] => false
  end.

(** [s.replace(old, new)], as [Py.replace_from] and [Py.str_replace]. *)
Fixpoint replace_from (old new : list N) (skip : nat) (s : list N) : list N :=
  match s with
  | [] => []
  | c :: s' =>
      match skip with
      | S k => replace_from old new k s'
      | O =>
          if starts_with old s
          then (new ++ replace_from old new (length old - 1) s')%list
          else c :: replace_from old new 0 s'
      end
  end.

Fixpoint intersperse_all (new s : list N) : list N :=
  match s with
  | [] => new
  | c :: s' => (new ++ c :: intersperse_all new s')%list
  end.

Definition str_replace (s old new : list N) : list N :=
  match old with
  | [] => intersperse_all new s
  | _ => replace_from old new 0 s
  end.

(** Line 26; 32 is the space, 95 the underscore, 45 the hyphen. *)
Definition canonical_key (db_name : list N) : option (list N) :=
  match str_lower db_name with
  | Some lowered => Some (str_replace (str_replace lowered [32%N] [95%N]) [45%N] [])
  | None => None
  end.

(** Lines 24 to 27; [None] when a display name leaves the blocks covered. *)
Fixpoint load_rows (rows : list (list (list N))) (endpoints : gmap (list N) (list N))
  : option (result exn (gmap (list N) (list N))) :=
  match rows with
  | [] => Some (Ok endpoints)
  | row :: rest =>
      match row with
      | [db_name; endpoint_url] =>
          match canonical_key db_name with
          | Some key => load_rows rest (<[key := endpoint_url]> endpoints)
          | None => None
          end
      | _ => Some (Raise (UnpackError (length row)))
      end
  end.

(** Lines 18 to 28. *)
Definition load_sparql_endpoints (reader : list (list (list N)))
  : option (result exn (gmap (list N) (list N))) :=
  match reader with
  | [] => Some (Raise StopIteration)
  | _header :: rows => load_rows rows ∅
  end.

(** The code points of a string of the range U+0000 to U+00FF. *)
Definition code_points (s : string) : list N :=
  map N_of_ascii (list_ascii_of_string s).

End Wide.

(* ===================================================================== *)
(** * Part II: properties *)
(* ===================================================================== *)

(** ** Canonical keys, character by character *)

Module KeyFacts.
Import Py Server KeySpec.

Ltac each_char c :=
  destruct c as [[] [] [] [] [] [] [] []]; vm_compute; try reflexivity; try congruence.

Lemma str_app_assoc (a b c : string) : (a ++ b) ++ c = a ++ (b ++ c).
Proof. induction a as [|x a IH]; simpl; [reflexivity | now rewrite IH]. Qed.

Lemma map_chars_app f (a b : string) :
  map_chars f (a ++ b) = map_chars f a ++ map_chars f b.
Proof.
  induction a as [|x a IH]; simpl; [reflexivity |].
  now rewrite IH, str_app_assoc.
Qed.

Lemma map_chars_ext f g (s : string) :
  (forall c, f c = g c) -> map_chars f s = map_chars g s.
Proof. intros E. induction s as [|x s IH]; simpl; [reflexivity | now rewrite E, IH]. Qed.

Lemma map_chars_compose f g (s : string) :
  map_chars g (map_chars f s) = map_chars (fun c => map_chars g (f c)) s.
Proof.
  induction s as [|x s IH]; simpl; [reflexivity |].
  now rewrite map_chars_app, IH.
Qed.

Lemma str_lower_map_chars (s : string) :
  str_lower s = map_chars (fun c => single (char_lower c)) s.
Proof. induction s as [|x s IH]; simpl; [reflexivity | now rewrite IH]. Qed.

(** Replacing a one-character pattern works character by character. *)
Lemma str_replace_char (s : string) (c : ascii) (new : string) :
  str_replace s (single c) new =
  map_chars (fun x => if Ascii.eqb x c then new else single x) s.
Proof.
  unfold str_replace, single.
  induction s as [|x s IH]; [reflexivity |].
  cbn [replace_from map_chars String.prefix String.length].
  destruct (ascii_dec c x) as [->|Hne].
  - rewrite Ascii.eqb_refl.
    replace (String.prefix "" s) with true by (destruct s; reflexivity).
    cbn [Nat.sub]. now rewrite IH.
  - assert (Ascii.eqb x c = false) as -> by (apply Ascii.eqb_neq; congruence).
    cbn [String.append]. now rewrite IH.
Qed.

Lemma key_char_pointwise (c : ascii) :
  map_chars (fun x => if Ascii.eqb x "-" then "" else single x)
    (map_chars (fun x => if Ascii.eqb x " " then "_" else single x)
       (single (char_lower c)))
  = key_char c.
Proof. each_char c. Qed.

(** The source expression and the character-wise description agree. *)
Lemma canonical_key_chars (name : string) :
  canonical_key name = map_chars key_char name.
Proof.
  unfold canonical_key.
  change " " with (single " ") at 1. change "-" with (single "-") at 1.
  rewrite !str_replace_char, str_lower_map_chars.
  rewrite (map_chars_compose (fun c => single (char_lower c))).
  rewrite map_chars_compose.
  apply map_chars_ext, key_char_pointwise.
Qed.

Lemma all_chars_app p (a b : string) :
  all_chars p (a ++ b) = all_chars p a && all_chars p b.
Proof.
  induction a as [|x a IH]; simpl; [reflexivity |].
  now rewrite IH, andb_assoc.
Qed.

Lemma key_char_safe (c : ascii) : all_chars key_safe (key_char c) = true.
Proof. each_char c. Qed.

Lemma canonical_key_safe (name : string) :
  all_chars key_safe (canonical_key name) = true.
Proof.
  rewrite canonical_key_chars.
  induction name as [|x s IH]; simpl; [reflexivity |].
  now rewrite all_chars_app, key_char_safe, IH.
Qed.

Lemma char_lower_fixed (c : ascii) : is_upper c = false -> char_lower c = c.
Proof. unfold char_lower. now intros ->. Qed.

Lemma str_lower_fixed (s : string) :
  all_chars key_safe s = true -> str_lower s = s.
Proof.
  induction s as [|x s IH]; simpl; [reflexivity |].
  unfold key_safe at 1. intros H.
  apply andb_prop in H as [H1 H2].
  apply andb_prop in H1 as [H1 _]. apply andb_prop in H1 as [H1 _].
  apply negb_true_iff in H1.
  now rewrite char_lower_fixed, IH.
Qed.

End KeyFacts.

(** ** Keys of names beyond U+00FF *)

Module WideFacts.
Import Py Server.

(** On display names within U+0000 to U+00FF the loader over code points
    computes the keys of [Server.canonical_key]. *)

Lemma code_points_app (a b : string) :
  Wide.code_points (a ++ b) = (Wide.code_points a ++ Wide.code_points b)%list.
Proof.
  induction a as [|c a IH]; [reflexivity |].
  cbn. unfold Wide.code_points in IH. cbn in IH. now rewrite IH.
Qed.

Lemma code_points_length (s : string) :
  length (Wide.code_points s) = String.length s.
Proof. induction s as [|c s IH]; [reflexivity |]. cbn. now f_equal. Qed.

Lemma char_lower_latin1 (c : ascii) :
  Wide.char_lower (N_of_ascii c) = Some (N_of_ascii (char_lower c)).
Proof. destruct c as [[] [] [] [] [] [] [] []]; reflexivity. Qed.

Lemma is_upper_latin1 (c : ascii) :
  Wide.is_upper (N_of_ascii c) = Some (is_upper c).
Proof. destruct c as [[] [] [] [] [] [] [] []]; reflexivity. Qed.

Lemma str_lower_latin1 (s : string) :
  Wide.str_lower (Wide.code_points s) = Some (Wide.code_points (str_lower s)).
Proof.
  induction s as [|c s IH]; [reflexivity |].
  change (Wide.code_points (String c s)) with (N_of_ascii c :: Wide.code_points s).
  cbn [Wide.str_lower str_lower]. now rewrite char_lower_latin1, IH.
Qed.

Lemma starts_with_latin1 (old s : string) :
  Wide.starts_with (Wide.code_points old) (Wide.code_points s) = String.prefix old s.
Proof.
  revert s. induction old as [|x old IH]; intros s; [now destruct s |].
  destruct s as [|y s]; [reflexivity |].
  change (Wide.starts_with (N_of_ascii x :: Wide.code_points old)
            (N_of_ascii y :: Wide.code_points s)
          = if ascii_dec x y then String.prefix old s else false).
  cbn [Wide.starts_with]. rewrite IH.
  destruct (ascii_dec x y) as [->|Hne].
  - now rewrite N.eqb_refl.
  - destruct (N.eqb_spec (N_of_ascii x) (N_of_ascii y)) as [He|]; [|reflexivity].
    destruct Hne. rewrite <- (ascii_N_embedding x), <- (ascii_N_embedding y). now f_equal.
Qed.

Lemma replace_from_latin1 (old new s : string) :
  forall skip,
    Wide.replace_from (Wide.code_points old) (Wide.code_points new) skip
      (Wide.code_points s)
    = Wide.code_points (replace_from old new skip s).
Proof.
  induction s as [|c s IH]; intros skip; [reflexivity |].
  change (Wide.code_points (String c s)) with (N_of_ascii c :: Wide.code_points s).
  cbn [Wide.replace_from replace_from].
  destruct skip as [|k]; [|apply IH].
  change (N_of_ascii c :: Wide.code_points s) with (Wide.code_points (String c s)).
  rewrite starts_with_latin1, code_points_length.
  destruct (String.prefix old (String c s)).
  - now rewrite code_points_app, IH.
  - now rewrite IH.
Qed.

Lemma intersperse_all_latin1 (new s : string) :
  Wide.intersperse_all (Wide.code_points new) (Wide.code_points s)
  = Wide.code_points (intersperse_all new s).
Proof.
  induction s as [|c s IH]; [reflexivity |].
  change (Wide.code_points (String c s)) with (N_of_ascii c :: Wide.code_points s).
  cbn [Wide.intersperse_all intersperse_all].
  rewrite code_points_app, IH. reflexivity.
Qed.

Lemma str_replace_latin1 (s old new : string) :
  Wide.str_replace (Wide.code_points s) (Wide.code_points old) (Wide.code_points new)
  = Wide.code_points (str_replace s old new).
Proof.
  destruct old as [|x old]; [apply intersperse_all_latin1 |].
  apply (replace_from_latin1 (String x old) new s 0).
Qed.

(** Line 26 on a name within U+0000 to U+00FF, in both renderings. *)
Lemma canonical_key_latin1 (db_name : string) :
  Wide.canonical_key (Wide.code_points db_name)
  = Some (Wide.code_points (canonical_key db_name)).
Proof.
  unfold Wide.canonical_key, canonical_key. rewrite str_lower_latin1. f_equal.
  rewrite <- (str_replace_latin1 _ "-" ""), <- (str_replace_latin1 _ " " "_").
  reflexivity.
Qed.

End WideFacts.

(** ** The endpoint table *)

Module EndpointTable.
Import Py Server KeySpec KeyFacts.

Lemma last_url_app (k : string) (a b : list (list string)) :
  last_url k (a ++ b) =
  match last_url k b with
  | Some url => Some url
  | None => last_url k a
  end.
Proof.
  induction a as [|row a IH]; simpl.
  - now destruct (last_url k b).
  - rewrite IH. now destruct (last_url k b).
Qed.

Lemma last_url_elem (k url : string) (rows : list (list string)) :
  last_url k rows = Some url ->
  exists name, [name; url] ∈ rows /\ canonical_key name = k.
Proof.
  induction rows as [|row rows IH]; simpl; [discriminate |].
  destruct (last_url k rows) as [u|] eqn:E.
  - intros [= ->]. destruct IH as (name & Hin & Hk); [reflexivity |].
    exists name. split; [apply elem_of_cons; now right | exact Hk].
  - destruct row as [|name [|u [|? ?]]]; try discriminate.
    destruct (String.eqb_spec (canonical_key name) k) as [Hk|]; [|discriminate].
    intros [= ->]. exists name. split; [apply elem_of_cons; now left | exact Hk].
Qed.

Lemma last_url_none (k : string) (rows : list (list string)) :
  (forall name url, [name; url] ∈ rows -> canonical_key name <> k) ->
  last_url k rows = None.
Proof.
  intros H. destruct (last_url k rows) as [url|] eqn:E; [|reflexivity].
  apply last_url_elem in E as (name & Hin & Hk). now destruct (H name url Hin).
Qed.

Lemma last_url_listed (name url : string) (rows : list (list string)) :
  [name; url] ∈ rows -> is_Some (last_url (canonical_key name) rows).
Proof.
  induction rows as [|row rows IH]; intros Hin.
  - now apply elem_of_nil in Hin.
  - simpl. apply elem_of_cons in Hin as [<-|Hin].
    + destruct (last_url _ rows); [eauto |]. rewrite String.eqb_refl. eauto.
    + destruct (IH Hin) as [u ->]. eauto.
Qed.

(** On rows of two columns the loop ends normally, and the mapping it
    returns binds every key to the URL of the last row of that key. *)
Lemma load_rows_ok (rows : list (list string)) :
  Forall two_columns rows ->
  forall endpoints, exists m,
    load_rows rows endpoints = Ok m /\
    forall k, m !! k = match last_url k rows with
                       | Some url => Some url
                       | None => endpoints !! k
                       end.
Proof.
  induction 1 as [|row rows Hrow _ IH]; intros endpoints.
  - exists endpoints. now split.
  - destruct row as [|name [|url [|? ?]]]; try discriminate Hrow.
    destruct (IH (<[canonical_key name := url]> endpoints)) as (m & Hm & Hlook).
    exists m. split; [exact Hm |].
    intros k. rewrite Hlook. simpl.
    destruct (last_url k rows); [reflexivity |].
    destruct (String.eqb_spec (canonical_key name) k) as [->|Hne].
    + apply lookup_insert_eq.
    + now apply lookup_insert_ne.
Qed.

(** The loop stops at the first row that does not have two columns. *)
Lemma load_rows_malformed (rows : list (list string)) :
  Exists (fun row => length row <> 2%nat) rows ->
  forall endpoints, exists got,
    got <> 2%nat /\ load_rows rows endpoints = Raise (UnpackError got).
Proof.
  induction rows as [|row rows IH]; intros Hex endpoints.
  - now apply Exists_nil in Hex.
  - destruct row as [|name [|url [|x rest]]].
    + exists 0%nat. now split.
    + exists 1%nat. now split.
    + apply Exists_cons in Hex as [Hbad|Hex]; [now destruct Hbad |].
      exact (IH Hex _).
    + exists (length (name :: url :: x :: rest)). split; [simpl; lia | reflexivity].
Qed.

Lemma key_absent_filter {V} (l : list (string * V)) (k : string) :
  k ∉ l.*1 -> filter (fun kv => kv.1 = k) l = [].
Proof.
  induction l as [|[k' v'] l IH]; intros Hk; [reflexivity |].
  rewrite fmap_cons in Hk. apply not_elem_of_cons in Hk as [Hne Hk].
  simpl in Hne. rewrite filter_cons_False by (simpl; intros ->; now apply Hne). now apply IH.
Qed.

Lemma key_listed_once {V} (l : list (string * V)) (k : string) (v : V) :
  NoDup l.*1 -> (k, v) ∈ l ->
  length (filter (fun kv => kv.1 = k) l) = 1%nat.
Proof.
  induction l as [|[k' v'] l IH]; intros Hnd Hin.
  - now apply elem_of_nil in Hin.
  - rewrite fmap_cons in Hnd. apply NoDup_cons in Hnd as [Hfresh Hnd].
    apply elem_of_cons in Hin as [[= <- <-]|Hin].
    + rewrite filter_cons_True by reflexivity.
      now rewrite key_absent_filter.
    + assert (k' <> k) as Hne.
      { intros ->. apply Hfresh, list_elem_of_fmap. now exists (k, v). }
      rewrite filter_cons_False by exact Hne. now apply IH.
Qed.

Lemma bound_once {V} (m : gmap string V) (k : string) (v : V) :
  m !! k = Some v ->
  length (filter (fun kv => kv.1 = k) (map_to_list m)) = 1%nat.
Proof.
  intros Hk. apply key_listed_once with v.
  - apply NoDup_fst_map_to_list.
  - now apply elem_of_map_to_list.
Qed.

(** C1 (as amended).  On every table whose data rows have two columns the
    loader returns a mapping whose keys are exactly the display names,
    lower-cased, with every space replaced by an underscore and every hyphen
    removed; a row named "UniProt KB" gives the key "uniprot_kb" and a row
    named "RDF Portal" gives the key "rdf_portal". *)
Theorem loader_keys_canonical :
  (forall (header : list string) (rows : list (list string)),
     Forall two_columns rows ->
     exists m,
       load_sparql_endpoints (header :: rows) = Ok m /\
       (forall name url, [name; url] ∈ rows ->
          is_Some (m !! map_chars key_char name)) /\
       (forall k, is_Some (m !! k) ->
          exists name url, [name; url] ∈ rows /\ k = map_chars key_char name)) /\
  (forall header url,
     load_sparql_endpoints [header; ["UniProt KB"; url]] = Ok {[ "uniprot_kb" := url ]}) /\
  (forall header url,
     load_sparql_endpoints [header; ["RDF Portal"; url]] = Ok {[ "rdf_portal" := url ]}).
Proof.
  split; [|split; intros header url; reflexivity].
  intros header rows Hwf. simpl.
  destruct (load_rows_ok rows Hwf ∅) as (m & Hm & Hlook).
  exists m. split; [exact Hm |]. split.
  - intros name url Hin. rewrite <- canonical_key_chars, Hlook.
    now destruct (last_url_listed name url rows Hin) as [u ->].
  - intros k [u Hk]. rewrite Hlook in Hk.
    destruct (last_url k rows) as [u'|] eqn:E.
    + apply last_url_elem in E as (name & Hin & <-).
      exists name, u'. split; [exact Hin | apply canonical_key_chars].
    + now rewrite lookup_empty in Hk.
Qed.

Lemma loader_keys_canonical_witness :
  Forall two_columns [["UniProt KB"; "https://example.org/sparql"]] /\
  exists m,
    load_sparql_endpoints
      [["Database"; "Endpoint"]; ["UniProt KB"; "https://example.org/sparql"]] = Ok m /\
    (forall name url, [name; url] ∈ [["UniProt KB"; "https://example.org/sparql"]] ->
       is_Some (m !! map_chars key_char name)) /\
    (forall k, is_Some (m !! k) ->
       exists name url, [name; url] ∈ [["UniProt KB"; "https://example.org/sparql"]] /\
                        k = map_chars key_char name).
Proof.
  assert (Forall two_columns [["UniProt KB"; "https://example.org/sparql"]]) as Hwf.
  { repeat constructor. }
  split; [exact Hwf |].
  exact (proj1 loader_keys_canonical ["Database"; "Endpoint"] _ Hwf).
Defined.

(** C1, counterexample.  The table with the single row "UniProt KB" loads to
    a mapping that has the key "uniprot_kb" and has no entry under
    "uniprotkb", the name with its space removed. *)
Lemma loader_key_keeps_underscore :
  stripped_key "UniProt KB" = "uniprotkb" /\
  exists m,
    load_sparql_endpoints
      [["Database"; "Endpoint"]; ["UniProt KB"; "https://example.org/sparql"]] = Ok m /\
    m !! stripped_key "UniProt KB" = None /\
    m !! "uniprot_kb" = Some "https://example.org/sparql".
Proof.
  split; [reflexivity |].
  eexists. split; [reflexivity |]. split; reflexivity.
Qed.

(** C5.  A table with a data row that does not have exactly two columns does
    not load: the loader raises the error of the unpacking that failed and
    returns no mapping, whatever the other rows are. *)
Theorem malformed_row_fails_load (header : list string) (rows : list (list string)) :
  Exists (fun row => length row <> 2%nat) rows ->
  exists got,
    (got <> 2%nat) /\
    (load_sparql_endpoints (header :: rows) = Raise (UnpackError got)) /\
    (forall m, load_sparql_endpoints (header :: rows) <> Ok m).
Proof.
  intros Hbad.
  destruct (load_rows_malformed rows Hbad ∅) as (got & Hgot & Hload).
  exists got. simpl. rewrite Hload. repeat split; [exact Hgot | discriminate].
Qed.

Lemma malformed_row_fails_load_witness :
  Exists (fun row => length row <> 2%nat)
    [["UniProt KB"; "https://example.org/sparql"]; ["PubChem"];
     ["ChEMBL"; "https://example.org/chembl"]] /\
  exists got,
    (got <> 2%nat) /\
    (load_sparql_endpoints
       [["Database"; "Endpoint"]; ["UniProt KB"; "https://example.org/sparql"];
        ["PubChem"]; ["ChEMBL"; "https://example.org/chembl"]]
     = Raise (UnpackError got)) /\
    (forall m,
       load_sparql_endpoints
         [["Database"; "Endpoint"]; ["UniProt KB"; "https://example.org/sparql"];
          ["PubChem"]; ["ChEMBL"; "https://example.org/chembl"]] <> Ok m).
Proof.
  assert (Exists (fun row => length row <> 2%nat)
            [["UniProt KB"; "https://example.org/sparql"]; ["PubChem"];
             ["ChEMBL"; "https://example.org/chembl"]]) as Hbad.
  { apply Exists_cons_tl, Exists_cons_hd. simpl. lia. }
  split; [exact Hbad |].
  exact (malformed_row_fails_load ["Database"; "Endpoint"] _ Hbad).
Defined.

(** C6.  When two rows (or more) have display names with the same canonical
    key, the load still succeeds; the mapping lists that key once, bound to
    the URL of the last row that has it. *)
Theorem duplicate_key_last_wins
    (header : list string) (before between after : list (list string))
    (name1 url1 name2 url2 : string) :
  let rows := (before ++ [name1; url1] :: between ++ [name2; url2] :: after)%list in
  Forall two_columns rows ->
  canonical_key name1 = canonical_key name2 ->
  (forall name url, [name; url] ∈ after -> canonical_key name <> canonical_key name2) ->
  exists m,
    load_sparql_endpoints (header :: rows) = Ok m /\
    m !! canonical_key name2 = Some url2 /\
    length (filter (fun kv => kv.1 = canonical_key name2) (map_to_list m)) = 1%nat.
Proof.
  intros rows Hwf _ Hlast.
  destruct (load_rows_ok rows Hwf ∅) as (m & Hm & Hlook).
  assert (m !! canonical_key name2 = Some url2) as Hk.
  { rewrite Hlook. unfold rows.
    rewrite last_url_app. cbn [last_url]. rewrite last_url_app. cbn [last_url].
    rewrite (last_url_none _ after Hlast), String.eqb_refl. reflexivity. }
  exists m. split; [exact Hm |]. split; [exact Hk |].
  now apply bound_once with url2.
Qed.

Lemma duplicate_key_last_wins_witness :
  let rows := ([] ++ ["Uni-Prot"; "https://example.org/old"]
                  :: [["PubChem"; "https://example.org/pubchem"]]
                  ++ ["UniProt"; "https://example.org/new"] :: [])%list in
  Forall two_columns rows /\
  canonical_key "Uni-Prot" = canonical_key "UniProt" /\
  exists m,
    load_sparql_endpoints (["Database"; "Endpoint"] :: rows) = Ok m /\
    m !! canonical_key "UniProt" = Some "https://example.org/new" /\
    length (filter (fun kv => kv.1 = canonical_key "UniProt") (map_to_list m)) = 1%nat.
Proof.
  assert (Forall two_columns
            ([] ++ ["Uni-Prot"; "https://example.org/old"]
               :: [["PubChem"; "https://example.org/pubchem"]]
               ++ ["UniProt"; "https://example.org/new"] :: [])%list) as Hwf.
  { repeat constructor. }
  assert (canonical_key "Uni-Prot" = canonical_key "UniProt") as Hsame.
  { reflexivity. }
  split; [exact Hwf |]. split; [exact Hsame |].
  refine (duplicate_key_last_wins ["Database"; "Endpoint"] [] _ []
            "Uni-Prot" _ "UniProt" _ Hwf Hsame _).
  intros name url Hin. now apply elem_of_nil in Hin.
Defined.

(** C9 (as amended).  On every table whose data rows have two columns and
    whose display names stay within U+0000 to U+00FF, every key of the mapping
    the loader returns is its own lower-casing and has no upper-case
    character, no space and no hyphen. *)
Theorem loader_keys_lowercase_no_space_no_hyphen
    (header : list string) (rows : list (list string)) :
  Forall two_columns rows ->
  exists m,
    load_sparql_endpoints (header :: rows) = Ok m /\
    forall k, is_Some (m !! k) ->
      str_lower k = k /\ all_chars key_safe k = true.
Proof.
  intros Hwf.
  destruct (load_rows_ok rows Hwf ∅) as (m & Hm & Hlook).
  exists m. split; [exact Hm |].
  intros k [u Hk]. rewrite Hlook in Hk.
  destruct (last_url k rows) as [u'|] eqn:E.
  - apply last_url_elem in E as (name & _ & <-).
    pose proof (canonical_key_safe name) as Hsafe.
    split; [now apply str_lower_fixed | exact Hsafe].
  - now rewrite lookup_empty in Hk.
Qed.

Lemma loader_keys_lowercase_no_space_no_hyphen_witness :
  Forall two_columns [["UniProt KB"; "https://example.org/sparql"];
                      ["Uni-Prot"; "https://example.org/old"]] /\
  exists m,
    load_sparql_endpoints
      [["Database"; "Endpoint"]; ["UniProt KB"; "https://example.org/sparql"];
       ["Uni-Prot"; "https://example.org/old"]] = Ok m /\
    forall k, is_Some (m !! k) ->
      str_lower k = k /\ all_chars key_safe k = true.
Proof.
  assert (Forall two_columns [["UniProt KB"; "https://example.org/sparql"];
                              ["Uni-Prot"; "https://example.org/old"]]) as Hwf.
  { repeat constructor. }
  split; [exact Hwf |].
  exact (loader_keys_lowercase_no_space_no_hyphen ["Database"; "Endpoint"] _ Hwf).
Defined.

(** C9, counterexample.  The well-formed table whose single row is named
    U+2102 (double-struck capital C) followed by "hem DB" loads to a mapping
    whose key is U+2102 followed by "hem_db": [str.lower] has no lower-case
    form for U+2102, which is an upper-case character, so the key is not
    entirely lower-case. *)
Lemma loader_key_keeps_upper_case_letter :
  let name := (0x2102%N :: Wide.code_points "hem DB") in
  let key := (0x2102%N :: Wide.code_points "hem_db") in
  let url := Wide.code_points "https://example.org/sparql" in
  let header := [Wide.code_points "Database"; Wide.code_points "Endpoint"] in
  length [name; url] = 2%nat /\
  Wide.is_upper 0x2102%N = Some true /\
  0x2102%N ∈ key /\
  exists m,
    Wide.load_sparql_endpoints [header; [name; url]] = Some (Ok m) /\
    m !! key = Some url.
Proof.
  intros name key url header.
  split; [reflexivity |]. split; [reflexivity |].
  split; [apply elem_of_cons; now left |].
  eexists. split; [reflexivity |]. vm_compute. reflexivity.
Qed.

End EndpointTable.

(** ** The query executor *)

Module Executor.
Import Py Server.

(** C3.  A database key that the endpoint table does not have makes the
    executor raise the unknown-database error; the world it returns is the
    world it was given, so no request was issued and nothing changed. *)
Theorem unknown_database_no_request
    (SPARQL_ENDPOINT : gmap string string) (sparql_query dbname : string) (w : net) :
  SPARQL_ENDPOINT !! dbname = None ->
  execute_sparql SPARQL_ENDPOINT sparql_query dbname w
  = (Raise (ValueError ("Unknown database: " ++ dbname)), w).
Proof. intros Hkey. unfold execute_sparql. now rewrite Hkey. Qed.

Lemma unknown_database_no_request_witness :
  ({[ "uniprot_kb" := "https://example.org/sparql" ]} : gmap string string) !! "uniprotkb"
  = None /\
  execute_sparql {[ "uniprot_kb" := "https://example.org/sparql" ]}
    "SELECT * WHERE {?s ?p ?o} LIMIT 1" "uniprotkb"
    {| answer := fun _ => Reply 200 "s,p,o"; sent := [] |}
  = (Raise (ValueError "Unknown database: uniprotkb"),
     {| answer := fun _ => Reply 200 "s,p,o"; sent := [] |}).
Proof.
  assert (({[ "uniprot_kb" := "https://example.org/sparql" ]} : gmap string string)
            !! "uniprotkb" = None) as Hkey by reflexivity.
  split; [exact Hkey |].
  exact (unknown_database_no_request _ "SELECT * WHERE {?s ?p ?o} LIMIT 1" "uniprotkb"
           {| answer := fun _ => Reply 200 "s,p,o"; sent := [] |} Hkey).
Defined.

(** C4.  For a database key that the endpoint table binds to a URL, the
    executor adds exactly one request to those already sent: a POST to that
    URL whose form data is the query under the field [query] and whose
    [Accept] header asks for [text/csv]; when the answer has a success status
    (200 to 299), the executor returns the body of the answer unchanged. *)
Theorem known_database_one_request
    (SPARQL_ENDPOINT : gmap string string) (sparql_query dbname url : string) (w : net) :
  SPARQL_ENDPOINT !! dbname = Some url ->
  let rq := {| req_method := "POST"; req_url := url;
               req_data := [("query", sparql_query)];
               req_headers := [("Accept", "text/csv")] |} in
  let run := execute_sparql SPARQL_ENDPOINT sparql_query dbname w in
  sent run.2 = (sent w ++ [rq])%list /\
  answer run.2 = answer w /\
  forall status_code text,
    answer w rq = Reply status_code text ->
    is_success status_code = true ->
    run.1 = Ok text.
Proof.
  intros Hkey rq run. unfold run, execute_sparql. rewrite Hkey. fold rq.
  unfold post.
  destruct (answer w rq) as [msg|status_code text] eqn:Hans.
  - repeat split. intros ? ? [=].
  - unfold raise_for_status.
    destruct (is_success status_code) eqn:Hok.
    + repeat split. now intros ? ? [= <- <-] _.
    + repeat split. intros ? ? [= <- <-] Hok'. congruence.
Qed.

Lemma known_database_one_request_witness :
  let E : gmap string string := {[ "uniprot_kb" := "https://example.org/sparql" ]} in
  let w := {| answer := fun _ => Reply 200 "s,p,o"; sent := [] |} in
  let rq := {| req_method := "POST"; req_url := "https://example.org/sparql";
               req_data := [("query", "SELECT * WHERE {?s ?p ?o} LIMIT 1")];
               req_headers := [("Accept", "text/csv")] |} in
  let run := execute_sparql E "SELECT * WHERE {?s ?p ?o} LIMIT 1" "uniprot_kb" w in
  E !! "uniprot_kb" = Some "https://example.org/sparql" /\
  sent run.2 = [rq] /\
  run.1 = Ok "s,p,o".
Proof.
  intros E w rq run.
  assert (E !! "uniprot_kb" = Some "https://example.org/sparql") as Hkey by reflexivity.
  split; [exact Hkey |].
  destruct (known_database_one_request E "SELECT * WHERE {?s ?p ?o} LIMIT 1"
              "uniprot_kb" _ w Hkey) as (Hsent & _ & Hbody).
  split; [exact Hsent |].
  exact (Hbody 200%Z "s,p,o" eq_refl eq_refl).
Defined.

End Executor.

(** ** The tool registry and the start-up merge *)

Module Registry.
Import Py Server SpecRegistry RegistrySpec.

Lemma last_with_key_elem (key : string) (batch : list Tool) (t : Tool) :
  last_with_key key batch = Some t -> t ∈ batch /\ tool_key t = key.
Proof.
  induction batch as [|t0 rest IH]; simpl; [discriminate |].
  destruct (last_with_key key rest) as [t'|].
  - intros [= ->]. destruct IH as [Hin Hk]; [reflexivity |].
    split; [apply elem_of_cons; now right | exact Hk].
  - destruct (String.eqb_spec (tool_key t0) key) as [Hk|]; [|discriminate].
    intros [= ->]. split; [apply elem_of_cons; now left | exact Hk].
Qed.

Lemma last_with_key_listed (batch : list Tool) (t : Tool) :
  t ∈ batch -> is_Some (last_with_key (tool_key t) batch).
Proof.
  induction batch as [|t0 rest IH]; intros Hin.
  - now apply elem_of_nil in Hin.
  - simpl. apply elem_of_cons in Hin as [<-|Hin].
    + destruct (last_with_key _ rest); [eauto |]. rewrite String.eqb_refl. eauto.
    + destruct (IH Hin) as [t' ->]. eauto.
Qed.

(** In a batch without repeated keys, a descriptor is the last one of its
    key. *)
Lemma last_with_key_unique (batch : list Tool) (t : Tool) :
  NoDup (tool_key <$> batch) -> t ∈ batch ->
  last_with_key (tool_key t) batch = Some t.
Proof.
  induction batch as [|t0 rest IH]; intros Hnd Hin.
  - now apply elem_of_nil in Hin.
  - rewrite fmap_cons in Hnd. apply NoDup_cons in Hnd as [Hfresh Hnd]. simpl.
    apply elem_of_cons in Hin as [->|Hin].
    + destruct (last_with_key (tool_key t0) rest) as [t'|] eqn:E.
      * apply last_with_key_elem in E as [Hin' Hk].
        destruct Hfresh. apply list_elem_of_fmap. now exists t'.
      * now rewrite String.eqb_refl.
    + now rewrite (IH Hnd Hin).
Qed.

(** With the default duplicate behaviour a registration always goes through
    and binds the key to the new descriptor. *)
Lemma add_tool_warn (mcp : FastMCP) (t : Tool) :
  on_duplicate_tools mcp = Warn -> add_tool mcp t = Ok (set_tool mcp t).
Proof. intros Hp. unfold add_tool. rewrite Hp. now destruct (tools mcp !! tool_key t). Qed.

(** The loop on a registry with the default duplicate behaviour. *)
Lemma merge_tools_warn (mcp : FastMCP) (batch : list Tool) :
  on_duplicate_tools mcp = Warn ->
  (merge_tools mcp batch).1 = None /\
  forall key,
    tools (merge_tools mcp batch).2 !! key =
    match last_with_key key batch with
    | Some t => Some t
    | None => tools mcp !! key
    end.
Proof.
  revert mcp. induction batch as [|t rest IH]; intros mcp Hp.
  - now split.
  - cbn [merge_tools]. rewrite (add_tool_warn mcp t Hp).
    destruct (IH (set_tool mcp t) Hp) as [Herr Hlook].
    split; [exact Herr |].
    intros key. rewrite Hlook. cbn [last_with_key].
    destruct (last_with_key key rest); [reflexivity |].
    cbn [set_tool tools].
    destruct (String.eqb_spec (tool_key t) key) as [->|Hne].
    + apply lookup_insert_eq.
    + now apply lookup_insert_ne.
Qed.





(** X25.  The merge of the source is a loop of single registrations and
    checks no collision itself.  On a registry with the default duplicate
    behaviour it ends without an error for every batch; afterwards each key
    of the batch is bound to the last descriptor of the batch with that key,
    whatever was registered under it before, and every other key is bound as
    it was. *)
Theorem merge_registers_whole_batch (mcp : FastMCP) (togoid_tools : list Tool) :
  on_duplicate_tools mcp = Warn ->
  (merge_tools mcp togoid_tools).1 = None /\
  (forall t, t ∈ togoid_tools ->
     is_Some (tools (merge_tools mcp togoid_tools).2 !! tool_key t)) /\
  forall key,
    tools (merge_tools mcp togoid_tools).2 !! key =
    match last_with_key key togoid_tools with
    | Some t => Some t
    | None => tools mcp !! key
    end.
Proof.
  intros Hp. destruct (merge_tools_warn mcp togoid_tools Hp) as [Herr Hlook].
  split; [exact Herr |]. split; [|exact Hlook].
  intros t Hin. rewrite Hlook.
  now destruct (last_with_key_listed togoid_tools t Hin) as [t' ->].
Qed.

Lemma merge_registers_whole_batch_witness :
  let hand := {| tool_key := "countId"; tool_origin := HandWritten;
                 tool_operation := "count_id" |} in
  let mcp := set_tool (FastMCP_new "TogoMCP: RDF Portal MCP Server") hand in
  let batch := from_openapi ["getDataset"; "countId"] ∅ in
  on_duplicate_tools mcp = Warn /\
  (merge_tools mcp batch).1 = None /\
  tools (merge_tools mcp batch).2 !! "getDataset" = Some (generate_tool ∅ "getDataset") /\
  tools (merge_tools mcp batch).2 !! "countId" = Some (generate_tool ∅ "countId").
Proof.
  intros hand mcp batch.
  assert (on_duplicate_tools mcp = Warn) as Hp by reflexivity.
  split; [exact Hp |].
  destruct (merge_registers_whole_batch mcp batch Hp) as (Herr & _ & Hlook).
  split; [exact Herr |].
  split; [exact (Hlook "getDataset") | exact (Hlook "countId")].
Defined.

Lemma from_openapi_keys (openapi_spec : list string) (renameMap : gmap string string) :
  tool_key <$> from_openapi openapi_spec renameMap
  = generated_name renameMap <$> openapi_spec.
Proof.
  unfold from_openapi. induction openapi_spec as [|op rest IH]; [reflexivity |].
  simpl. f_equal. exact IH.
Qed.

(** C7.  Take a schema and a rename map that give the generated tools
    distinct names, and an operation of the schema that the map sends to an
    alternate name different from the operation identifier.  After the merge
    into a new primary server, the tool generated for that operation is
    registered under the alternate name, and it is not what the default name
    is bound to. *)
Theorem renamed_tool_registered_under_alternate
    (server : string) (openapi_spec : list string) (renameMap : gmap string string)
    (operation_id alternate : string) :
  renameMap !! operation_id = Some alternate ->
  operation_id ∈ openapi_spec ->
  alternate <> operation_id ->
  NoDup (generated_name renameMap <$> openapi_spec) ->
  let merged := merge_tools (FastMCP_new server) (from_openapi openapi_spec renameMap) in
  merged.1 = None /\
  tools merged.2 !! alternate = Some (generate_tool renameMap operation_id) /\
  tool_key (generate_tool renameMap operation_id) = alternate /\
  tools merged.2 !! operation_id <> Some (generate_tool renameMap operation_id).
Proof.
  intros Hmap Hop Hne Hnd merged.
  destruct (merge_tools_warn (FastMCP_new server)
              (from_openapi openapi_spec renameMap) eq_refl) as [Herr Hlook].
  fold merged in Herr, Hlook.
  assert (tool_key (generate_tool renameMap operation_id) = alternate) as Hkey.
  { cbn [generate_tool tool_key]. unfold generated_name. now rewrite Hmap. }
  split; [exact Herr |]. split; [|split; [exact Hkey |]].
  - rewrite Hlook, <- Hkey.
    rewrite last_with_key_unique; [reflexivity | now rewrite from_openapi_keys |].
    unfold from_openapi. apply list_elem_of_fmap. now exists operation_id.
  - rewrite Hlook.
    destruct (last_with_key operation_id _) as [t|] eqn:E.
    + apply last_with_key_elem in E as [_ Hk]. intros [= ->]. congruence.
    + cbn. rewrite lookup_empty. discriminate.
Qed.

Lemma renamed_tool_registered_under_alternate_witness :
  let openapi_spec := ["getAllDataset"; "getDataset"; "getAllRelation"; "getRelation";
                       "convertId"; "countId"; "getDescription"] in
  let merged := merge_tools (FastMCP_new "TogoMCP: RDF Portal MCP Server")
                  (from_openapi openapi_spec mcp_names) in
  mcp_names !! "getAllDataset" = Some "togoId_getAllDataset" /\
  merged = startup openapi_spec /\
  merged.1 = None /\
  tools merged.2 !! "togoId_getAllDataset" = Some (generate_tool mcp_names "getAllDataset") /\
  tools merged.2 !! "getAllDataset" <> Some (generate_tool mcp_names "getAllDataset").
Proof.
  intros openapi_spec merged.
  assert (mcp_names !! "getAllDataset" = Some "togoId_getAllDataset") as Hmap
    by reflexivity.
  assert ("getAllDataset" ∈ openapi_spec) as Hop by (apply elem_of_cons; now left).
  assert ("togoId_getAllDataset" <> "getAllDataset") as Hne by discriminate.
  assert (NoDup (generated_name mcp_names <$> openapi_spec)) as Hnd.
  { apply (bool_decide_unpack _). vm_compute. exact I. }
  destruct (renamed_tool_registered_under_alternate
              "TogoMCP: RDF Portal MCP Server" openapi_spec mcp_names
              "getAllDataset" "togoId_getAllDataset" Hmap Hop Hne Hnd)
    as (Herr & Hreg & _ & Hnot).
  split; [exact Hmap |]. split; [reflexivity |].
  split; [exact Herr |]. split; [exact Hreg | exact Hnot].
Defined.

End Registry.

(** ** The evaluation harness *)

Module HarnessFacts.
Import Py Harness HarnessSpec.

Ltac lookup_key :=
  repeat (rewrite lookup_insert_ne by discriminate);
  first [ rewrite lookup_insert_eq | rewrite lookup_empty ].

(** One call of [_make_api_call], in full: it reads the clock, calls the API
    once, and reads the clock again unless the API raised outside
    [Exception]. *)
Lemma make_api_call_run (cfg : config) (question system_prompt : string)
    (use_tools : bool) (mcp_servers : pyval)
    (f : nat -> outcome) (c r : nat) (l : list event) :
  let kwargs := request_kwargs cfg question system_prompt use_tools mcp_servers in
  let called := (l ++ [EvCreate kwargs])%list in
  let elapsed := FSub (Clock (S r)) (Clock r) in
  _make_api_call cfg question system_prompt use_tools mcp_servers
    {| api := f; calls := c; reads := r; log := l |}
  = match f c with
    | Returns resp =>
        (Ok (success_dict resp elapsed),
         {| api := f; calls := S c; reads := S (S r); log := called |})
    | Raises e =>
        if is_Exception e
        then (Ok (failure_dict e elapsed),
              {| api := f; calls := S c; reads := S (S r); log := called |})
        else (Raise e, {| api := f; calls := S c; reads := S r; log := called |})
    end.
Proof.
  intros kwargs called elapsed.
  unfold _make_api_call, bind, try_except_Exception, time_time, messages_create, ret.
  cbn [api calls reads log]. fold (request_kwargs cfg question system_prompt use_tools mcp_servers).
  fold kwargs. fold called.
  destruct (f c) as [resp|e]; [reflexivity |].
  now destruct (is_Exception e).
Qed.

Lemma success_flag (resp : response) (elapsed : pyfloat) :
  success_dict resp elapsed !! "success" = Some (VBool true).
Proof. unfold success_dict. now lookup_key. Qed.

Lemma failure_flag (e : exn) (elapsed : pyfloat) :
  failure_dict e elapsed !! "success" = Some (VBool false).
Proof. unfold failure_dict. now lookup_key. Qed.

Lemma stop_index_shift (f : nat -> outcome) (c m : nat) :
  stop_index f c (S (S m)) =
  match f c with
  | Returns _ => O
  | Raises _ => S (stop_index f (S c) (S m))
  end.
Proof. reflexivity. Qed.

Section Retry.
Variables (cfg : config) (question system_prompt : string)
          (use_tools : bool) (mcp_servers : pyval) (f : nat -> outcome).
Hypothesis delay_ok : (0 <= retry_delay cfg)%Z.
Hypothesis no_interrupt : forall i e, f i = Raises e -> is_Exception e = true.

Let kwargs := request_kwargs cfg question system_prompt use_tools mcp_servers.
Let call := _make_api_call cfg question system_prompt use_tools mcp_servers.

Lemma retry_loop_run (m : nat) :
  forall (a c r : nat) (l : list event) (res : option (gmap string pyval)),
    Z.of_nat (a + S m) = retry_attempts cfg ->
    let k := stop_index f c (S m) in
    retry_loop cfg call (map Z.of_nat (seq a (S m))) res
      {| api := f; calls := c; reads := r; log := l |}
    = (Ok (attempt_dict (f (c + k)) (FSub (Clock (S (r + 2 * k))) (Clock (r + 2 * k)))),
       {| api := f; calls := S (c + k); reads := S (S (r + 2 * k));
          log := (l ++ failed_rounds kwargs (retry_delay cfg) (Z.of_nat a) k
                    ++ [EvCreate kwargs])%list |}).
Proof.
  induction m as [|m IH]; intros a c r l res Hn k.
  - cbn [seq map retry_loop]. unfold bind at 1. unfold call.
    rewrite make_api_call_run. fold kwargs.
    subst k. cbn [stop_index].
    destruct (f c) as [resp|e] eqn:Hfc.
    + cbn [Nat.mul]. rewrite !Nat.add_0_r, Hfc. cbn [attempt_dict failed_rounds].
      rewrite success_flag. reflexivity.
    + rewrite (no_interrupt c e Hfc).
      cbn [Nat.mul]. rewrite !Nat.add_0_r, Hfc. cbn [attempt_dict failed_rounds].
      rewrite failure_flag. cbn [truthy].
      replace (Z.of_nat a <? retry_attempts cfg - 1)%Z with false
        by (symmetry; apply Z.ltb_ge; lia).
      reflexivity.
  - change (seq a (S (S m))) with (a :: seq (S a) (S m)).
    cbn [map retry_loop]. unfold bind at 1. unfold call at 1.
    rewrite make_api_call_run. fold kwargs.
    subst k. rewrite stop_index_shift.
    destruct (f c) as [resp|e] eqn:Hfc.
    + cbn [Nat.mul]. rewrite !Nat.add_0_r, Hfc. cbn [attempt_dict failed_rounds].
      rewrite success_flag. reflexivity.
    + rewrite (no_interrupt c e Hfc). rewrite failure_flag. cbn [truthy].
      replace (Z.of_nat a <? retry_attempts cfg - 1)%Z with true
        by (symmetry; apply Z.ltb_lt; lia).
      unfold bind at 1. unfold bind at 1. unfold emit at 1. cbn [api calls reads log].
      unfold time_sleep.
      replace (retry_delay cfg <? 0)%Z with false by (symmetry; apply Z.ltb_ge; lia).
      unfold emit at 1. cbn [api calls reads log].
      rewrite IH by lia.
      set (k := stop_index f (S c) (S m)).
      replace (S c + k)%nat with (c + S k)%nat by lia.
      replace (S (S r) + 2 * k)%nat with (r + 2 * S k)%nat by lia.
      cbn [failed_rounds].
      replace (Z.of_nat (S a)) with (Z.of_nat a + 1)%Z by lia.
      now rewrite <- !app_assoc.
Qed.
End Retry.

Lemma stop_index_spec (f : nat -> outcome) (m : nat) :
  (forall i e, f i = Raises e -> is_Exception e = true) ->
  forall c,
    let k := stop_index f c (S m) in
    (k <= m)%nat /\
    (forall i, (i < k)%nat -> failed (f (c + i))) /\
    (succeeded (f (c + k)) \/ (failed (f (c + k)) /\ k = m)).
Proof.
  intros Hexc. induction m as [|m IH]; intros c k.
  - subst k. cbn [stop_index]. split; [|split].
    + destruct (f c); lia.
    + intros i Hi. destruct (f c); lia.
    + replace (c + match f c with Returns _ | _ => 0 end)%nat with c
        by (destruct (f c); lia).
      destruct (f c) as [resp|e] eqn:Hfc; [left; now exists resp |].
      right. split; [|reflexivity]. exists e. split; [reflexivity | eauto].
  - subst k. rewrite stop_index_shift.
    destruct (f c) as [resp|e] eqn:Hfc.
    + split; [lia |]. split; [intros i Hi; lia |].
      left. exists resp. now rewrite Nat.add_0_r.
    + destruct (IH (S c)) as (Hle & Hbefore & Hlast).
      set (k := stop_index f (S c) (S m)) in *.
      split; [lia |]. split.
      * intros [|i] Hi.
        -- rewrite Nat.add_0_r. exists e. split; [exact Hfc | eauto].
        -- replace (c + S i)%nat with (S c + i)%nat by lia. apply Hbefore. lia.
      * replace (c + S k)%nat with (S c + k)%nat by lia.
        destruct Hlast as [Hs|[Hf Hk]]; [now left | right; split; [exact Hf | lia]].
Qed.

(** C8 (as amended).  With at least one attempt configured, a delay that is
    not negative, and API calls that end in a response or in an exception of
    class [Exception], the retry wrapper stops at attempt [k], the first
    attempt that succeeds or else the last one allowed: it has made [k + 1]
    calls, at most [retry_attempts]; the [k] attempts before it failed, and
    each was followed by one sleep of [retry_delay] seconds; nothing follows
    the call of attempt [k]; the wrapper returns the dictionary of attempt
    [k], which is the first success or, when every attempt failed, the last
    failure. *)
Theorem retry_bounded_fixed_delay
    (cfg : config) (question system_prompt : string)
    (use_tools : bool) (mcp_servers : pyval) (w : world) :
  (1 <= retry_attempts cfg)%Z ->
  (0 <= retry_delay cfg)%Z ->
  (forall i e, api w i = Raises e -> is_Exception e = true) ->
  let n := Z.to_nat (retry_attempts cfg) in
  let kwargs := request_kwargs cfg question system_prompt use_tools mcp_servers in
  let k := stop_index (api w) (calls w) n in
  let run := _run_with_retry cfg question system_prompt use_tools mcp_servers w in
  (k < n)%nat /\
  (forall i, (i < k)%nat -> failed (api w (calls w + i))) /\
  (succeeded (api w (calls w + k)) \/
   (failed (api w (calls w + k)) /\ S k = n)) /\
  run.1 = Ok (attempt_dict (api w (calls w + k))
                (FSub (Clock (S (reads w + 2 * k))) (Clock (reads w + 2 * k)))) /\
  calls run.2 = (calls w + S k)%nat /\
  log run.2 = (log w ++ failed_rounds kwargs (retry_delay cfg) 0 k
                 ++ [EvCreate kwargs])%list.
Proof.
  intros Hn Hd Hexc n kwargs k run.
  destruct (Z.to_nat (retry_attempts cfg)) as [|m] eqn:Hm; [lia |].
  subst n. destruct (stop_index_spec (api w) m Hexc (calls w)) as (Hle & Hbefore & Hlast).
  fold k in Hle, Hbefore, Hlast.
  split; [lia |]. split; [exact Hbefore |]. split.
  { destruct Hlast as [Hs|[Hf Hk]]; [now left | right; split; [exact Hf | lia]]. }
  assert (run = (Ok (attempt_dict (api w (calls w + k))
                       (FSub (Clock (S (reads w + 2 * k))) (Clock (reads w + 2 * k)))),
                 {| api := api w; calls := S (calls w + k);
                    reads := S (S (reads w + 2 * k));
                    log := (log w ++ failed_rounds kwargs (retry_delay cfg) 0 k
                              ++ [EvCreate kwargs])%list |})) as ->.
  { unfold run, _run_with_retry, range. rewrite Hm.
    destruct w as [f c r l]. cbn [api calls reads log] in *.
    apply (retry_loop_run cfg question system_prompt use_tools mcp_servers f Hd Hexc
             m 0 c r l None).
    lia. }
  cbn [fst snd calls log]. repeat split. lia.
Qed.

Lemma retry_bounded_fixed_delay_witness :
  let cfg := _load_config None in
  let resp := {| content := [TextBlock "UniProt is a protein database."];
                 stop_reason := VStr "end_turn";
                 input_tokens := 12; output_tokens := 7 |} in
  let busy := Raises (Exception_ "RateLimitError" "rate limited") in
  let w := {| api := fun i => match i with
                              | 0%nat | 1%nat => busy
                              | _ => Returns resp
                              end;
              calls := 0; reads := 0; log := [] |} in
  let kwargs := request_kwargs cfg "What is UniProt?" (baseline_system_prompt cfg)
                  false VNone in
  let run := _run_with_retry cfg "What is UniProt?" (baseline_system_prompt cfg)
               false VNone w in
  (1 <= retry_attempts cfg)%Z /\
  (0 <= retry_delay cfg)%Z /\
  run.1 = Ok (success_dict resp (FSub (Clock 5) (Clock 4))) /\
  calls run.2 = 3%nat /\
  log run.2 = [EvCreate kwargs; EvRetryNotice 1 2; EvSleep 2;
               EvCreate kwargs; EvRetryNotice 2 2; EvSleep 2;
               EvCreate kwargs].
Proof.
  intros cfg resp busy w kwargs run.
  assert (1 <= retry_attempts cfg)%Z as Hn by (cbn; lia).
  assert (0 <= retry_delay cfg)%Z as Hd by (cbn; lia).
  assert (forall i e, api w i = Raises e -> is_Exception e = true) as Hexc.
  { intros [|[|i]] e [= <-]; reflexivity. }
  destruct (retry_bounded_fixed_delay cfg "What is UniProt?"
              (baseline_system_prompt cfg) false VNone w Hn Hd Hexc)
    as (_ & _ & _ & Hres & Hcalls & Hlog).
  split; [exact Hn |]. split; [exact Hd |].
  split; [exact Hres |]. split; [exact Hcalls | exact Hlog].
Defined.

(** C8, counterexample.  Three sequences of outcomes on which the wrapper
    returns no result, although a later call would succeed.  With the default
    configuration, an interrupt from the keyboard in the first call leaves
    the wrapper after that one call.  With a [retry_delay] of -1 in the
    configuration file, a first call that fails is followed by the
    [ValueError] of [time.sleep], and no second call is made.  With
    [retry_attempts] 0 in the configuration file no call is made and
    [return result] raises [UnboundLocalError]. *)
Lemma retry_returns_no_result :
  let resp := {| content := [TextBlock "UniProt is a protein database."];
                 stop_reason := VStr "end_turn";
                 input_tokens := 12; output_tokens := 7 |} in
  let busy := Raises (Exception_ "RateLimitError" "rate limited") in
  let interrupted := {| api := fun i => match i with
                                        | 0%nat => Raises KeyboardInterrupt
                                        | _ => Returns resp
                                        end;
                        calls := 0; reads := 0; log := [] |} in
  let busy_once := {| api := fun i => match i with
                                      | 0%nat => busy
                                      | _ => Returns resp
                                      end;
                      calls := 0; reads := 0; log := [] |} in
  let file (attempts delay : option Z) :=
    {| u_model := None; u_max_tokens := None; u_temperature := None;
       u_baseline_system_prompt := None; u_togomcp_system_prompt := None;
       u_timeout := None; u_retry_attempts := attempts; u_retry_delay := delay |} in
  let run cfg w :=
    _run_with_retry cfg "What is UniProt?" (baseline_system_prompt cfg) false VNone w in
  ((run (_load_config None) interrupted).1 = Raise KeyboardInterrupt /\
   calls (run (_load_config None) interrupted).2 = 1%nat) /\
  ((run (_load_config (Some (file None (Some (-1)%Z)))) busy_once).1
     = Raise (ValueError "sleep length must be non-negative") /\
   calls (run (_load_config (Some (file None (Some (-1)%Z)))) busy_once).2 = 1%nat) /\
  ((run (_load_config (Some (file (Some 0%Z) None))) busy_once).1
     = Raise (UnboundLocalError "result") /\
   calls (run (_load_config (Some (file (Some 0%Z) None))) busy_once).2 = 0%nat).
Proof. repeat split; reflexivity. Qed.

(** C10 (as amended).  Whenever the API call ends in a response or raises an
    exception of class [Exception], [_make_api_call] returns a dictionary
    with the keys "success" and "elapsed_time": after a response it has
    success [True] and also "text", "tool_uses", "stop_reason" and "usage";
    after such an exception it has success [False] and the message of the
    exception under "error".  An exception that is not of class [Exception]
    leaves the function as it was raised. *)
Theorem api_call_total_on_Exception
    (cfg : config) (question system_prompt : string)
    (use_tools : bool) (mcp_servers : pyval) (w : world) :
  let run := _make_api_call cfg question system_prompt use_tools mcp_servers w in
  let elapsed := FSub (Clock (S (reads w))) (Clock (reads w)) in
  (forall resp, api w (calls w) = Returns resp ->
     exists d,
       run.1 = Ok d /\
       d !! "success" = Some (VBool true) /\
       d !! "elapsed_time" = Some (VFloat elapsed) /\
       is_Some (d !! "text") /\ is_Some (d !! "tool_uses") /\
       is_Some (d !! "stop_reason") /\ is_Some (d !! "usage")) /\
  (forall e, api w (calls w) = Raises e -> is_Exception e = true ->
     exists d,
       run.1 = Ok d /\
       d !! "success" = Some (VBool false) /\
       d !! "elapsed_time" = Some (VFloat elapsed) /\
       d !! "error" = Some (VStr (exn_str e))) /\
  (forall e, api w (calls w) = Raises e -> is_Exception e = false ->
     run.1 = Raise e).
Proof.
  intros run elapsed. subst run. destruct w as [f c r l].
  rewrite make_api_call_run. cbn [api calls reads] in *. fold elapsed.
  split; [|split].
  - intros resp ->. eexists. split; [reflexivity |].
    unfold success_dict. repeat split; lookup_key; eauto.
  - intros e -> ->. eexists. split; [reflexivity |].
    unfold failure_dict. repeat split; now lookup_key.
  - now intros e -> ->.
Qed.

Lemma api_call_total_on_Exception_witness :
  let w := {| api := fun _ => Raises (Exception_ "APIConnectionError" "Connection error.");
              calls := 0; reads := 0; log := [] |} in
  let run := _make_api_call default_config "What is UniProt?"
               (baseline_system_prompt default_config) false VNone w in
  api w (calls w) = Raises (Exception_ "APIConnectionError" "Connection error.") /\
  is_Exception (Exception_ "APIConnectionError" "Connection error.") = true /\
  exists d,
    run.1 = Ok d /\
    d !! "success" = Some (VBool false) /\
    d !! "elapsed_time" = Some (VFloat (FSub (Clock 1) (Clock 0))) /\
    d !! "error" = Some (VStr "Connection error.").
Proof.
  intros w run.
  assert (api w (calls w) = Raises (Exception_ "APIConnectionError" "Connection error."))
    as Hout by reflexivity.
  assert (is_Exception (Exception_ "APIConnectionError" "Connection error.") = true)
    as Hcls by reflexivity.
  split; [exact Hout |]. split; [exact Hcls |].
  exact (proj1 (proj2 (api_call_total_on_Exception default_config "What is UniProt?"
                         (baseline_system_prompt default_config) false VNone w))
           _ Hout Hcls).
Defined.

(** C10, counterexample.  When the API call is interrupted from the keyboard,
    [_make_api_call] returns no dictionary: the interrupt propagates. *)
Lemma api_call_propagates_interrupt :
  let w := {| api := fun _ => Raises KeyboardInterrupt;
              calls := 0; reads := 0; log := [] |} in
  (_make_api_call default_config "What is UniProt?"
     (baseline_system_prompt default_config) false VNone w).1
  = Raise KeyboardInterrupt.
Proof. reflexivity. Qed.

End HarnessFacts.

(** ** More on canonical keys and on the loader *)

Module TableFacts.
Import Py Server KeySpec KeyFacts EndpointTable TableSpec.

Lemma key_char_of_safe (c : ascii) : key_safe c = true -> key_char c = single c.
Proof.
  destruct c as [[] [] [] [] [] [] [] []]; vm_compute; intros H;
    first [reflexivity | discriminate H].
Qed.

Lemma canonical_key_of_safe (s : string) :
  all_chars key_safe s = true -> canonical_key s = s.
Proof.
  rewrite canonical_key_chars.
  induction s as [|c s IH]; simpl; [reflexivity |].
  intros H. apply andb_prop in H as [Hc Hs].
  now rewrite (key_char_of_safe c Hc), IH.
Qed.

(** X1.  Normalising a canonical key gives the key back: [canonical_key] is
    idempotent. *)
Theorem canonical_key_idempotent (name : string) :
  canonical_key (canonical_key name) = canonical_key name.
Proof. apply canonical_key_of_safe, canonical_key_safe. Qed.

(** X2.  For display names within U+0000 to U+00FF, the key of a
    concatenation is the concatenation of the keys: on that range the
    normalisation looks at one character at a time. *)
Theorem canonical_key_app (a b : string) :
  canonical_key (a ++ b) = canonical_key a ++ canonical_key b.
Proof. rewrite !canonical_key_chars. apply map_chars_app. Qed.

Lemma str_length_app (a b : string) :
  String.length (a ++ b) = (String.length a + String.length b)%nat.
Proof. induction a as [|x a IH]; simpl; [reflexivity | now rewrite IH]. Qed.

Lemma key_char_length (c : ascii) :
  (String.length (key_char c) + (if Ascii.eqb c "-" then 1 else 0) = 1)%nat.
Proof. each_char c. Qed.

(** X3.  For a display name within U+0000 to U+00FF, the key is as long as
    the name without its hyphens; it is never longer than the name. *)
Theorem canonical_key_length (name : string) :
  (String.length (canonical_key name) + count_char "-" name = String.length name)%nat.
Proof.
  rewrite canonical_key_chars.
  induction name as [|c s IH]; simpl; [reflexivity |].
  rewrite str_length_app. pose proof (key_char_length c). lia.
Qed.

Lemma load_rows_Ok_inv (rows : list (list string)) :
  forall endpoints m, load_rows rows endpoints = Ok m -> Forall two_columns rows.
Proof.
  induction rows as [|row rows IH]; intros endpoints m Hm; [constructor |].
  destruct row as [|name [|url [|? ?]]]; try discriminate Hm.
  constructor; [reflexivity | exact (IH _ _ Hm)].
Qed.

(** X4.  The load succeeds exactly on the files that have a first row and
    whose other rows all have two columns. *)
Theorem load_succeeds_iff (reader : list (list string)) :
  (exists m, load_sparql_endpoints reader = Ok m) <->
  (exists header rows, reader = header :: rows /\ Forall two_columns rows).
Proof.
  split.
  - intros [m Hm]. destruct reader as [|header rows]; [discriminate Hm |].
    exists header, rows. split; [reflexivity | exact (load_rows_Ok_inv _ _ _ Hm)].
  - intros (header & rows & -> & Hwf).
    destruct (load_rows_ok rows Hwf ∅) as (m & Hm & _). now exists m.
Qed.

Lemma load_rows_first_bad (good : list (list string)) (bad : list string)
    (rest : list (list string)) :
  Forall two_columns good -> length bad <> 2%nat ->
  forall endpoints,
    load_rows (good ++ bad :: rest) endpoints = Raise (UnpackError (length bad)).
Proof.
  intros Hgood Hbad. induction Hgood as [|row good Hrow _ IH]; intros endpoints.
  - simpl. destruct bad as [|a [|b [|? ?]]]; try reflexivity. now destruct Hbad.
  - destruct row as [|name [|url [|? ?]]]; try discriminate Hrow.
    simpl. apply IH.
Qed.

(** X5.  The error of a failed load tells the length of the first data row
    that does not have two columns; the rows after it are not looked at. *)
Theorem load_reports_first_malformed_row
    (header : list string) (good : list (list string)) (bad : list string)
    (rest : list (list string)) :
  Forall two_columns good ->
  length bad <> 2%nat ->
  load_sparql_endpoints (header :: good ++ bad :: rest)%list
  = Raise (UnpackError (length bad)).
Proof. intros Hgood Hbad. simpl. now apply load_rows_first_bad. Qed.

Lemma load_reports_first_malformed_row_witness :
  Forall two_columns [["UniProt"; "https://example.org/sparql"]] /\
  length ["PubChem"; "https://example.org/pubchem"; "extra"] <> 2%nat /\
  load_sparql_endpoints
    (["Database"; "Endpoint"]
       :: [["UniProt"; "https://example.org/sparql"]]
       ++ ["PubChem"; "https://example.org/pubchem"; "extra"] :: [["MeSH"]])%list
  = Raise (UnpackError 3).
Proof.
  assert (Forall two_columns [["UniProt"; "https://example.org/sparql"]]) as Hgood
    by (repeat constructor).
  assert (length ["PubChem"; "https://example.org/pubchem"; "extra"] <> 2%nat) as Hbad
    by (simpl; lia).
  split; [exact Hgood |]. split; [exact Hbad |].
  exact (load_reports_first_malformed_row ["Database"; "Endpoint"] _ _ [["MeSH"]]
           Hgood Hbad).
Defined.

Lemma last_url_unique (rows : list (list string)) (name url : string) :
  NoDup (row_key <$> rows) -> [name; url] ∈ rows ->
  last_url (canonical_key name) rows = Some url.
Proof.
  induction rows as [|row rows IH]; intros Hnd Hin.
  - now apply elem_of_nil in Hin.
  - rewrite fmap_cons in Hnd. apply NoDup_cons in Hnd as [Hfresh Hnd]. simpl.
    apply elem_of_cons in Hin as [<-|Hin].
    + rewrite last_url_none, String.eqb_refl; [reflexivity |].
      intros name' url' Hin' Hk. apply Hfresh, list_elem_of_fmap.
      exists [name'; url']. split; [simpl; congruence | exact Hin'].
    + now rewrite (IH Hnd Hin).
Qed.

(** X6.  When the display names of a well-formed table have pairwise
    different keys, no row is lost: looking up the key of any row in the
    loaded mapping gives the URL of that row. *)
Theorem distinct_keys_every_row_found
    (header : list string) (rows : list (list string)) :
  Forall two_columns rows ->
  NoDup (row_key <$> rows) ->
  exists m,
    load_sparql_endpoints (header :: rows) = Ok m /\
    forall name url, [name; url] ∈ rows -> m !! canonical_key name = Some url.
Proof.
  intros Hwf Hnd. simpl.
  destruct (load_rows_ok rows Hwf ∅) as (m & Hm & Hlook).
  exists m. split; [exact Hm |].
  intros name url Hin. now rewrite Hlook, (last_url_unique rows name url Hnd Hin).
Qed.

Lemma distinct_keys_every_row_found_witness :
  Forall two_columns [["UniProt KB"; "https://example.org/uniprot"];
                      ["Pub-Chem"; "https://example.org/pubchem"]] /\
  NoDup (row_key <$> [["UniProt KB"; "https://example.org/uniprot"];
                      ["Pub-Chem"; "https://example.org/pubchem"]]) /\
  exists m,
    load_sparql_endpoints
      [["Database"; "Endpoint"]; ["UniProt KB"; "https://example.org/uniprot"];
       ["Pub-Chem"; "https://example.org/pubchem"]] = Ok m /\
    forall name url,
      [name; url] ∈ [["UniProt KB"; "https://example.org/uniprot"];
                     ["Pub-Chem"; "https://example.org/pubchem"]] ->
      m !! canonical_key name = Some url.
Proof.
  assert (Forall two_columns [["UniProt KB"; "https://example.org/uniprot"];
                              ["Pub-Chem"; "https://example.org/pubchem"]]) as Hwf
    by (repeat constructor).
  assert (NoDup (row_key <$> [["UniProt KB"; "https://example.org/uniprot"];
                              ["Pub-Chem"; "https://example.org/pubchem"]])) as Hnd.
  { apply (bool_decide_unpack _). vm_compute. exact I. }
  split; [exact Hwf |]. split; [exact Hnd |].
  exact (distinct_keys_every_row_found ["Database"; "Endpoint"] _ Hwf Hnd).
Defined.

Lemma load_rows_size (rows : list (list string)) :
  forall endpoints m,
    load_rows rows endpoints = Ok m ->
    (size m <= size endpoints + length rows)%nat /\
    (size m = (size endpoints + length rows)%nat <->
     NoDup (row_key <$> rows) /\
     forall row, row ∈ rows -> endpoints !! row_key row = None).
Proof.
  induction rows as [|row rows IH]; intros endpoints m Hm.
  - injection Hm as <-. simpl. split; [lia |]. split; [intros _ | lia].
    split; [constructor | intros row Hin; now apply elem_of_nil in Hin].
  - destruct row as [|name [|url [|? ?]]]; try discriminate Hm.
    cbn [load_rows] in Hm. destruct (IH _ _ Hm) as [Hle Heq].
    set (k := canonical_key name) in *.
    rewrite fmap_cons. change (row_key [name; url]) with k. cbn [length].
    destruct (endpoints !! k) as [old|] eqn:Hk.
    + rewrite (map_size_insert_Some k url endpoints) in Hle, Heq by eauto.
      split; [lia |]. split; [lia |].
      intros [_ Hfree]. specialize (Hfree [name; url]).
      rewrite elem_of_cons in Hfree. change (row_key [name; url]) with k in Hfree.
      rewrite Hk in Hfree. discriminate Hfree. now left.
    + rewrite (map_size_insert_None k url endpoints Hk) in Hle, Heq.
      split; [lia |].
      replace (size endpoints + S (length rows))%nat
        with (S (size endpoints) + length rows)%nat by lia.
      rewrite Heq, NoDup_cons. split.
      * intros [Hnd Hfree]. split; [split; [|exact Hnd] |].
        -- intros Hin. apply list_elem_of_fmap in Hin as (row & Hrow & Hin).
           specialize (Hfree row Hin). rewrite <- Hrow in Hfree.
           now rewrite lookup_insert_eq in Hfree.
        -- intros row Hin. apply elem_of_cons in Hin as [->|Hin]; [exact Hk |].
           specialize (Hfree row Hin).
           destruct (decide (k = row_key row)) as [He|Hne].
           ++ rewrite <- He, lookup_insert_eq in Hfree. discriminate Hfree.
           ++ now rewrite lookup_insert_ne in Hfree.
      * intros [[Hfresh Hnd] Hfree]. split; [exact Hnd |].
        intros row Hin. rewrite lookup_insert_ne.
        -- apply Hfree, elem_of_cons. now right.
        -- intros He. apply Hfresh, list_elem_of_fmap. now exists row.
Qed.

(** X7.  The loaded mapping never has more entries than the table has data
    rows, and it has as many exactly when the keys of the rows are pairwise
    different: every repeated key loses a row. *)
Theorem load_size_counts_distinct_keys
    (header : list string) (rows : list (list string)) :
  Forall two_columns rows ->
  exists m,
    load_sparql_endpoints (header :: rows) = Ok m /\
    (size m <= length rows)%nat /\
    (size m = length rows <-> NoDup (row_key <$> rows)).
Proof.
  intros Hwf. simpl.
  destruct (load_rows_ok rows Hwf ∅) as (m & Hm & _).
  exists m. split; [exact Hm |].
  destruct (load_rows_size rows ∅ m Hm) as [Hle Heq].
  rewrite map_size_empty in Hle, Heq. simpl in Hle, Heq.
  split; [exact Hle |]. rewrite Heq. split; [now intros [Hnd _] |].
  intros Hnd. split; [exact Hnd |]. intros row _. apply lookup_empty.
Qed.

Lemma load_size_counts_distinct_keys_witness :
  Forall two_columns [["Uni-Prot"; "https://example.org/old"];
                      ["UniProt"; "https://example.org/new"]] /\
  exists m,
    load_sparql_endpoints
      [["Database"; "Endpoint"]; ["Uni-Prot"; "https://example.org/old"];
       ["UniProt"; "https://example.org/new"]] = Ok m /\
    (size m <= 2)%nat /\
    (size m = 2%nat <->
     NoDup (row_key <$> [["Uni-Prot"; "https://example.org/old"];
                         ["UniProt"; "https://example.org/new"]])).
Proof.
  assert (Forall two_columns [["Uni-Prot"; "https://example.org/old"];
                              ["UniProt"; "https://example.org/new"]]) as Hwf
    by (repeat constructor).
  split; [exact Hwf |].
  exact (load_size_counts_distinct_keys ["Database"; "Endpoint"] _ Hwf).
Defined.

End TableFacts.

(** ** More on the query executor, alone and behind the loader *)

Module ExecutorFacts.
Import Py Server KeySpec KeyFacts EndpointTable TableSpec.

Lemma execute_known (SPARQL_ENDPOINT : gmap string string)
    (sparql_query dbname url : string) (w : net) :
  SPARQL_ENDPOINT !! dbname = Some url ->
  (execute_sparql SPARQL_ENDPOINT sparql_query dbname w).1 =
  match answer w (sparql_request url sparql_query) with
  | NoReply msg => Raise (TransportError msg)
  | Reply status_code text =>
      if is_success status_code then Ok text
      else Raise (HTTPStatusError status_code text)
  end.
Proof.
  intros Hkey. unfold execute_sparql, post, raise_for_status. rewrite Hkey.
  fold (sparql_request url sparql_query).
  destruct (answer w (sparql_request url sparql_query)) as [msg|status_code text];
    [reflexivity |].
  now destruct (is_success status_code).
Qed.

(** X8.  The executor returns a text exactly when the database key is in the
    table and the answer to its request has a success status and that text as
    its body; no other answer is ever passed on as a result. *)
Theorem execute_returns_body_iff
    (SPARQL_ENDPOINT : gmap string string) (sparql_query dbname text : string) (w : net) :
  (execute_sparql SPARQL_ENDPOINT sparql_query dbname w).1 = Ok text <->
  exists url status_code,
    SPARQL_ENDPOINT !! dbname = Some url /\
    answer w (sparql_request url sparql_query) = Reply status_code text /\
    is_success status_code = true.
Proof.
  split.
  - destruct (SPARQL_ENDPOINT !! dbname) as [url|] eqn:Hkey.
    + rewrite (execute_known _ _ _ url w Hkey).
      destruct (answer w (sparql_request url sparql_query)) as [msg|status_code body]
        eqn:Hans; [discriminate |].
      destruct (is_success status_code) eqn:Hok; [|discriminate].
      intros [= ->]. now exists url, status_code.
    + unfold execute_sparql. rewrite Hkey. discriminate.
  - intros (url & status_code & Hkey & Hans & Hok).
    now rewrite (execute_known _ _ _ url w Hkey), Hans, Hok.
Qed.

(** X9.  For a known key, an answer whose status is below 200 or above 299
    (a redirect as well as a client or server error) makes the executor raise
    the status error with that status and the body of the answer. *)
Theorem execute_raises_on_error_status
    (SPARQL_ENDPOINT : gmap string string) (sparql_query dbname url : string) (w : net)
    (status_code : Z) (text : string) :
  SPARQL_ENDPOINT !! dbname = Some url ->
  answer w (sparql_request url sparql_query) = Reply status_code text ->
  (status_code < 200 \/ 299 < status_code)%Z ->
  (execute_sparql SPARQL_ENDPOINT sparql_query dbname w).1
  = Raise (HTTPStatusError status_code text).
Proof.
  intros Hkey Hans Hrange. rewrite (execute_known _ _ _ url w Hkey), Hans.
  replace (is_success status_code) with false; [reflexivity |].
  symmetry. unfold is_success. apply andb_false_iff.
  destruct Hrange; [left; apply Z.leb_gt | right; apply Z.leb_gt]; lia.
Qed.

Lemma execute_raises_on_error_status_witness :
  let E : gmap string string := {[ "uniprot" := "https://example.org/sparql" ]} in
  let w := {| answer := fun _ => Reply 302 "Found"; sent := [] |} in
  E !! "uniprot" = Some "https://example.org/sparql" /\
  answer w (sparql_request "https://example.org/sparql" "ASK {}") = Reply 302 "Found" /\
  (302 < 200 \/ 299 < 302)%Z /\
  (execute_sparql E "ASK {}" "uniprot" w).1 = Raise (HTTPStatusError 302 "Found").
Proof.
  intros E w.
  assert (E !! "uniprot" = Some "https://example.org/sparql") as Hkey by reflexivity.
  assert (answer w (sparql_request "https://example.org/sparql" "ASK {}")
          = Reply 302 "Found") as Hans by reflexivity.
  assert (302 < 200 \/ 299 < 302)%Z as Hrange by (right; lia).
  split; [exact Hkey |]. split; [exact Hans |]. split; [exact Hrange |].
  exact (execute_raises_on_error_status E "ASK {}" "uniprot" _ w 302 "Found"
           Hkey Hans Hrange).
Defined.

Lemma loaded_keys_safe (rows : list (list string)) (m : gmap string string) (k : string) :
  (forall k', m !! k' = match last_url k' rows with
                        | Some url => Some url
                        | None => (∅ : gmap string string) !! k'
                        end) ->
  is_Some (m !! k) -> all_chars key_safe k = true.
Proof.
  intros Hlook [u Hk]. rewrite Hlook in Hk.
  destruct (last_url k rows) as [u'|] eqn:E.
  - apply last_url_elem in E as (name & _ & <-). apply canonical_key_safe.
  - now rewrite lookup_empty in Hk.
Qed.

(** X10.  With names within U+0000 to U+00FF, a database named as in the
    table file, with an upper-case letter, a space or a hyphen, is not a key
    of the loaded table: the executor refuses it as unknown and sends
    nothing. *)
Theorem display_name_is_not_a_key
    (header : list string) (rows : list (list string))
    (sparql_query dbname : string) (w : net) :
  Forall two_columns rows ->
  all_chars key_safe dbname = false ->
  exists m,
    load_sparql_endpoints (header :: rows) = Ok m /\
    execute_sparql m sparql_query dbname w
    = (Raise (ValueError ("Unknown database: " ++ dbname)), w).
Proof.
  intros Hwf Hunsafe. simpl.
  destruct (load_rows_ok rows Hwf ∅) as (m & Hm & Hlook).
  exists m. split; [exact Hm |].
  unfold execute_sparql.
  destruct (m !! dbname) as [url|] eqn:Hk; [|reflexivity].
  assert (all_chars key_safe dbname = true) as Hsafe
    by (apply (loaded_keys_safe rows m dbname Hlook); eauto).
  congruence.
Qed.

Lemma display_name_is_not_a_key_witness :
  let w := {| answer := fun _ => Reply 200 "s,p,o"; sent := [] |} in
  Forall two_columns [["UniProt KB"; "https://example.org/sparql"]] /\
  all_chars key_safe "UniProt KB" = false /\
  exists m,
    load_sparql_endpoints
      [["Database"; "Endpoint"]; ["UniProt KB"; "https://example.org/sparql"]] = Ok m /\
    execute_sparql m "ASK {}" "UniProt KB" w
    = (Raise (ValueError "Unknown database: UniProt KB"), w).
Proof.
  intros w.
  assert (Forall two_columns [["UniProt KB"; "https://example.org/sparql"]]) as Hwf
    by (repeat constructor).
  assert (all_chars key_safe "UniProt KB" = false) as Hunsafe by reflexivity.
  split; [exact Hwf |]. split; [exact Hunsafe |].
  exact (display_name_is_not_a_key ["Database"; "Endpoint"] _ "ASK {}" "UniProt KB" w
           Hwf Hunsafe).
Defined.

(** X11.  Loading a table and querying by the key of one of its rows sends
    one POST to the URL of the last row that has this key, and a success
    answer comes back as the result. *)
Theorem load_then_execute
    (header : list string) (before after : list (list string))
    (name url sparql_query : string) (w : net) :
  let rows := (before ++ [name; url] :: after)%list in
  Forall two_columns rows ->
  (forall name' url', [name'; url'] ∈ after -> canonical_key name' <> canonical_key name) ->
  exists m,
    load_sparql_endpoints (header :: rows) = Ok m /\
    let run := execute_sparql m sparql_query (canonical_key name) w in
    sent run.2 = (sent w ++ [sparql_request url sparql_query])%list /\
    forall status_code text,
      answer w (sparql_request url sparql_query) = Reply status_code text ->
      is_success status_code = true ->
      run.1 = Ok text.
Proof.
  intros rows Hwf Hlast. simpl.
  destruct (load_rows_ok rows Hwf ∅) as (m & Hm & Hlook).
  exists m. split; [exact Hm |].
  assert (m !! canonical_key name = Some url) as Hk.
  { rewrite Hlook. unfold rows. rewrite last_url_app. cbn [last_url].
    now rewrite (last_url_none _ after Hlast), String.eqb_refl. }
  split.
  - unfold execute_sparql. rewrite Hk. fold (sparql_request url sparql_query).
    unfold post.
    destruct (answer w (sparql_request url sparql_query)) as [msg|status_code text];
      [reflexivity |].
    unfold raise_for_status. now destruct (is_success status_code).
  - intros status_code text Hans Hok.
    now rewrite (execute_known m _ _ url w Hk), Hans, Hok.
Qed.

Lemma load_then_execute_witness :
  let w := {| answer := fun _ => Reply 200 "s,p,o"; sent := [] |} in
  let rows := ([] ++ ["UniProt KB"; "https://example.org/sparql"] :: [])%list in
  Forall two_columns rows /\
  exists m,
    load_sparql_endpoints (["Database"; "Endpoint"] :: rows) = Ok m /\
    let run := execute_sparql m "SELECT * WHERE {?s ?p ?o} LIMIT 1"
                 (canonical_key "UniProt KB") w in
    sent run.2 = (sent w ++ [sparql_request "https://example.org/sparql"
                               "SELECT * WHERE {?s ?p ?o} LIMIT 1"])%list /\
    forall status_code text,
      answer w (sparql_request "https://example.org/sparql"
                  "SELECT * WHERE {?s ?p ?o} LIMIT 1") = Reply status_code text ->
      is_success status_code = true ->
      run.1 = Ok text.
Proof.
  intros w rows.
  assert (Forall two_columns rows) as Hwf by (repeat constructor).
  split; [exact Hwf |].
  refine (load_then_execute ["Database"; "Endpoint"] [] [] "UniProt KB" _
            "SELECT * WHERE {?s ?p ?o} LIMIT 1" w Hwf _).
  intros name' url' Hin. now apply elem_of_nil in Hin.
Defined.

End ExecutorFacts.

(** ** More on the merge loop *)

Module RegistryFacts.
Import Py Server RegistrySpec Registry.

Lemma add_tool_keeps (mcp mcp' : FastMCP) (t : Tool) :
  add_tool mcp t = Ok mcp' ->
  dom (tools mcp) ⊆ dom (tools mcp') /\
  on_duplicate_tools mcp' = on_duplicate_tools mcp /\
  server_name mcp' = server_name mcp.
Proof.
  unfold add_tool.
  destruct (tools mcp !! tool_key t);
    [destruct (on_duplicate_tools mcp) eqn:Hp|]; intros [= <-];
    cbn [set_tool tools on_duplicate_tools server_name];
    rewrite ?dom_insert_L; repeat split; try set_solver; auto.
Qed.

(** X12.  Whatever the duplicate behaviour, and whether the loop ends
    normally or at an exception, the merge removes no name from the registry
    and leaves the server's name and duplicate behaviour as they were. *)
Theorem merge_never_unregisters (mcp : FastMCP) (togoid_tools : list Tool) :
  dom (tools mcp) ⊆ dom (tools (merge_tools mcp togoid_tools).2) /\
  on_duplicate_tools (merge_tools mcp togoid_tools).2 = on_duplicate_tools mcp /\
  server_name (merge_tools mcp togoid_tools).2 = server_name mcp.
Proof.
  revert mcp. induction togoid_tools as [|t rest IH]; intros mcp.
  - now repeat split.
  - cbn [merge_tools]. destruct (add_tool mcp t) as [mcp'|e] eqn:Hadd.
    + destruct (add_tool_keeps mcp mcp' t Hadd) as (Hdom & Hp & Hn).
      destruct (IH mcp') as (Hdom' & Hp' & Hn').
      repeat split; [now transitivity (dom (tools mcp')) | congruence | congruence].
    + now repeat split.
Qed.

Lemma add_tool_free (mcp : FastMCP) (t : Tool) :
  tools mcp !! tool_key t = None -> add_tool mcp t = Ok (set_tool mcp t).
Proof. intros Hfree. unfold add_tool. now rewrite Hfree. Qed.

Lemma merge_tools_free (batch : list Tool) :
  NoDup (tool_key <$> batch) ->
  forall mcp,
    (forall t, t ∈ batch -> tools mcp !! tool_key t = None) ->
    (merge_tools mcp batch).1 = None /\
    forall key,
      tools (merge_tools mcp batch).2 !! key =
      match last_with_key key batch with
      | Some t => Some t
      | None => tools mcp !! key
      end.
Proof.
  induction batch as [|t rest IH]; intros Hnd mcp Hfree.
  - now split.
  - rewrite fmap_cons in Hnd. apply NoDup_cons in Hnd as [Hfresh Hnd].
    cbn [merge_tools]. rewrite add_tool_free by (apply Hfree, elem_of_cons; now left).
    assert (forall t', t' ∈ rest -> tools (set_tool mcp t) !! tool_key t' = None)
      as Hfree'.
    { intros t' Hin. cbn [set_tool tools]. rewrite lookup_insert_ne.
      - apply Hfree, elem_of_cons. now right.
      - intros He. apply Hfresh, list_elem_of_fmap. now exists t'. }
    destruct (IH Hnd (set_tool mcp t) Hfree') as [Herr Hlook].
    split; [exact Herr |].
    intros key. rewrite Hlook. cbn [last_with_key].
    destruct (last_with_key key rest); [reflexivity |].
    cbn [set_tool tools].
    destruct (String.eqb_spec (tool_key t) key) as [->|Hne].
    + apply lookup_insert_eq.
    + now apply lookup_insert_ne.
Qed.

(** Where the names of the batch are pairwise different and none is in use,
    as at the start-up of the source (a new registry, a batch that comes from
    a dict), the merge loop does what [registerAll] of the specification
    does: neither reports an error, and both leave the same tools
    registered. *)
Lemma merge_loop_is_registerAll (mcp : FastMCP) (togoid_tools : list Tool) :
  NoDup (tool_key <$> togoid_tools) ->
  (forall t, t ∈ togoid_tools -> tools mcp !! tool_key t = None) ->
  (merge_tools mcp togoid_tools).1 = None /\
  SpecRegistry.registerAll (tools mcp) togoid_tools
  = (None, tools (merge_tools mcp togoid_tools).2).
Proof.
  intros Hnd Hfree. split; [now apply merge_tools_free |].
  unfold SpecRegistry.registerAll.
  replace (SpecRegistry.register_each (tools mcp) togoid_tools)
    with (@Ok SpecRegistry.RegistryError _ (tools (merge_tools mcp togoid_tools).2));
    [reflexivity |].
  symmetry. revert mcp Hfree.
  induction togoid_tools as [|t rest IH]; intros mcp Hfree; [reflexivity |].
  rewrite fmap_cons in Hnd. apply NoDup_cons in Hnd as [Hfresh Hnd].
  assert (tools mcp !! tool_key t = None) as Ht by (apply Hfree, elem_of_cons; now left).
  cbn [SpecRegistry.register_each merge_tools].
  unfold SpecRegistry.register, add_tool. rewrite Ht.
  apply (IH Hnd (set_tool mcp t)).
  intros t' Hin. cbn [set_tool tools]. rewrite lookup_insert_ne.
  - apply Hfree, elem_of_cons. now right.
  - intros He. apply Hfresh, list_elem_of_fmap. now exists t'.
Qed.

(** X13.  When the keys of the batch are pairwise different and none is
    registered yet, the merge ends normally under every duplicate behaviour,
    files every tool of the batch under its own key, adds as many entries as
    the batch has tools, and changes no other key. *)
Theorem collision_free_merge_registers_all (mcp : FastMCP) (togoid_tools : list Tool) :
  NoDup (tool_key <$> togoid_tools) ->
  (forall t, t ∈ togoid_tools -> tools mcp !! tool_key t = None) ->
  let merged := merge_tools mcp togoid_tools in
  merged.1 = None /\
  (forall t, t ∈ togoid_tools -> tools merged.2 !! tool_key t = Some t) /\
  (forall key, key ∉ tool_key <$> togoid_tools ->
     tools merged.2 !! key = tools mcp !! key).
Proof.
  intros Hnd Hfree merged.
  destruct (merge_tools_free togoid_tools Hnd mcp Hfree) as [Herr Hlook].
  fold merged in Herr, Hlook.
  split; [exact Herr |]. split.
  - intros t Hin. now rewrite Hlook, (last_with_key_unique togoid_tools t Hnd Hin).
  - intros key Hkey. rewrite Hlook.
    destruct (last_with_key key togoid_tools) as [t|] eqn:E; [|reflexivity].
    apply last_with_key_elem in E as [Hin Hk].
    destruct Hkey. apply list_elem_of_fmap. now exists t.
Qed.

Lemma collision_free_merge_registers_all_witness :
  let hand := {| tool_key := "get_sparql_endpoints"; tool_origin := HandWritten;
                 tool_operation := "get_sparql_endpoints" |} in
  let mcp := {| server_name := "TogoMCP: RDF Portal MCP Server";
                on_duplicate_tools := Error;
                tools := {[ "get_sparql_endpoints" := hand ]} |} in
  let batch := from_openapi ["getDataset"; "countId"] mcp_names in
  let merged := merge_tools mcp batch in
  NoDup (tool_key <$> batch) /\
  merged.1 = None /\
  tools merged.2 !! "togoId_getDataset" = Some (generate_tool mcp_names "getDataset") /\
  tools merged.2 !! "togoId_countId" = Some (generate_tool mcp_names "countId") /\
  tools merged.2 !! "get_sparql_endpoints" = Some hand.
Proof.
  intros hand mcp batch merged.
  assert (NoDup (tool_key <$> batch)) as Hnd.
  { apply (bool_decide_unpack _). vm_compute. exact I. }
  assert (forall t, t ∈ batch -> tools mcp !! tool_key t = None) as Hfree.
  { intros t Hin. apply elem_of_cons in Hin as [->|Hin]; [reflexivity |].
    apply elem_of_cons in Hin as [->|Hin]; [reflexivity |].
    now apply elem_of_nil in Hin. }
  destruct (collision_free_merge_registers_all mcp batch Hnd Hfree)
    as (Herr & Hreg & Hother).
  split; [exact Hnd |]. split; [exact Herr |].
  split; [apply (Hreg (generate_tool mcp_names "getDataset")), elem_of_cons; now left |].
  split.
  - apply (Hreg (generate_tool mcp_names "countId")), elem_of_cons. right.
    apply elem_of_cons. now left.
  - refine (eq_trans (Hother "get_sparql_endpoints" _) eq_refl).
    intros Hin. apply elem_of_cons in Hin as [He|Hin]; [discriminate He |].
    apply elem_of_cons in Hin as [He|Hin]; [discriminate He |].
    now apply elem_of_nil in Hin.
Defined.

End RegistryFacts.

(** ** More on the harness: any outcome, interrupts, edge configurations *)

Module RetryFacts.
Import Py Harness HarnessSpec HarnessFacts Runner LogSpec.

Section Steps.
Variables (cfg : config) (question system_prompt : string)
          (use_tools : bool) (mcp_servers : pyval).

Let kwargs := request_kwargs cfg question system_prompt use_tools mcp_servers.
Let call := _make_api_call cfg question system_prompt use_tools mcp_servers.

(** One pass of the loop, case by case. *)
Lemma retry_loop_step (attempt : Z) (rest : list Z) (res : option (gmap string pyval))
    (f : nat -> outcome) (c r : nat) (l : list event) :
  let elapsed := FSub (Clock (S r)) (Clock r) in
  let called := (l ++ [EvCreate kwargs])%list in
  retry_loop cfg call (attempt :: rest) res {| api := f; calls := c; reads := r; log := l |}
  = match f c with
    | Returns resp =>
        (Ok (success_dict resp elapsed),
         {| api := f; calls := S c; reads := S (S r); log := called |})
    | Raises e =>
        if is_Exception e then
          if (attempt <? retry_attempts cfg - 1)%Z then
            let noticed :=
              (called ++ [EvRetryNotice (attempt + 1) (retry_delay cfg)])%list in
            if (retry_delay cfg <? 0)%Z then
              (Raise (ValueError "sleep length must be non-negative"),
               {| api := f; calls := S c; reads := S (S r); log := noticed |})
            else
              retry_loop cfg call rest (Some (failure_dict e elapsed))
                {| api := f; calls := S c; reads := S (S r);
                   log := (noticed ++ [EvSleep (retry_delay cfg)])%list |}
          else
            retry_loop cfg call rest (Some (failure_dict e elapsed))
              {| api := f; calls := S c; reads := S (S r); log := called |}
        else (Raise e, {| api := f; calls := S c; reads := S r; log := called |})
    end.
Proof.
  intros elapsed called.
  cbn [retry_loop]. unfold bind at 1. unfold call at 1.
  rewrite make_api_call_run. fold kwargs. fold elapsed. fold called.
  destruct (f c) as [resp|e]; [now rewrite success_flag |].
  destruct (is_Exception e); [|reflexivity].
  rewrite failure_flag. cbn [truthy].
  destruct (attempt <? retry_attempts cfg - 1)%Z.
  - unfold bind at 1. unfold bind at 1. unfold emit at 1. cbn [api calls reads log].
    unfold time_sleep. destruct (retry_delay cfg <? 0)%Z; reflexivity.
  - reflexivity.
Qed.

Variable f : nat -> outcome.

(** What any run of the loop over the attempts [a], ..., [a + m - 1] adds to
    the log. *)
Lemma retry_loop_log (m : nat) :
  forall (a c r : nat) (l : list event) (res : option (gmap string pyval)),
    Z.of_nat (a + m) = retry_attempts cfg ->
    let run := retry_loop cfg call (map Z.of_nat (seq a m)) res
                 {| api := f; calls := c; reads := r; log := l |} in
    exists evs,
      log run.2 = (l ++ evs)%list /\
      api run.2 = f /\
      calls run.2 = (c + length (created evs))%nat /\
      (length (created evs) <= m)%nat /\
      Forall (eq kwargs) (created evs) /\
      Forall (eq (retry_delay cfg)) (slept evs) /\
      (m = 0%nat -> evs = []) /\
      (0 < m -> length (slept evs) < length (created evs))%nat.
Proof.
  induction m as [|m IH]; intros a c r l res Hn run.
  - exists []. subst run. cbn [seq map retry_loop].
    destruct res; cbn; rewrite app_nil_r; repeat split; auto; lia.
  - subst run. change (seq a (S m)) with (a :: seq (S a) m). cbn [map].
    rewrite retry_loop_step.
    assert (Z.of_nat (S a + m) = retry_attempts cfg) as Hn' by lia.
    destruct (f c) as [resp|e].
    { exists [EvCreate kwargs]. cbn. repeat split; auto; try lia; discriminate. }
    destruct (is_Exception e).
    2:{ exists [EvCreate kwargs]. cbn. repeat split; auto; try lia; discriminate. }
    destruct (Z.ltb_spec (Z.of_nat a) (retry_attempts cfg - 1)) as [Hmore|Hlast].
    + cbv zeta. destruct (retry_delay cfg <? 0)%Z.
      { exists [EvCreate kwargs; EvRetryNotice (Z.of_nat a + 1) (retry_delay cfg)].
        cbn. rewrite <- !app_assoc. repeat split; auto; try lia; discriminate. }
      destruct (IH (S a) (S c) (S (S r))
                  (((l ++ [EvCreate kwargs])
                      ++ [EvRetryNotice (Z.of_nat a + 1) (retry_delay cfg)])
                     ++ [EvSleep (retry_delay cfg)])%list
                  (Some (failure_dict e (FSub (Clock (S r)) (Clock r)))) Hn')
        as (evs & Hlog & Hapi & Hcalls & Hle & Hkw & Hsl & _ & Hlt).
      exists ([EvCreate kwargs; EvRetryNotice (Z.of_nat a + 1) (retry_delay cfg);
               EvSleep (retry_delay cfg)] ++ evs)%list.
      rewrite Hlog, Hapi, Hcalls. cbn. rewrite <- !app_assoc. cbn.
      fold (created evs). fold (slept evs).
      repeat split; auto; try lia; try discriminate.
    + destruct (IH (S a) (S c) (S (S r)) (l ++ [EvCreate kwargs])%list
                  (Some (failure_dict e (FSub (Clock (S r)) (Clock r)))) Hn')
        as (evs & Hlog & Hapi & Hcalls & Hle & Hkw & Hsl & Hnil & _).
      rewrite (Hnil ltac:(lia)) in *.
      exists [EvCreate kwargs].
      rewrite Hlog, Hapi, Hcalls. cbn. rewrite app_nil_r.
      repeat split; auto; try lia; discriminate.
Qed.

(** An interrupt at attempt [k], after [k] failed attempts. *)
Lemma retry_loop_interrupted (e : exn) (k : nat) :
  (0 <= retry_delay cfg)%Z ->
  is_Exception e = false ->
  forall (m a c r : nat) (l : list event) (res : option (gmap string pyval)),
    (k < m)%nat ->
    Z.of_nat (a + m) = retry_attempts cfg ->
    (forall i, (i < k)%nat -> failed (f (c + i))) ->
    f (c + k) = Raises e ->
    retry_loop cfg call (map Z.of_nat (seq a m)) res
      {| api := f; calls := c; reads := r; log := l |}
    = (Raise e,
       {| api := f; calls := S (c + k); reads := S (r + 2 * k);
          log := (l ++ failed_rounds kwargs (retry_delay cfg) (Z.of_nat a) k
                    ++ [EvCreate kwargs])%list |}).
Proof.
  intros Hd He. induction k as [|k IH]; intros m a c r l res Hk Hn Hbefore Hat.
  - destruct m as [|m]; [lia |].
    change (seq a (S m)) with (a :: seq (S a) m). cbn [map].
    rewrite retry_loop_step. rewrite Nat.add_0_r in Hat. rewrite Hat, He.
    cbn [failed_rounds Nat.mul]. now rewrite !Nat.add_0_r.
  - destruct m as [|m]; [lia |].
    change (seq a (S m)) with (a :: seq (S a) m). cbn [map].
    rewrite retry_loop_step.
    destruct (Hbefore 0%nat ltac:(lia)) as (e0 & He0 & Hcls).
    rewrite Nat.add_0_r in He0. rewrite He0, Hcls.
    replace (Z.of_nat a <? retry_attempts cfg - 1)%Z with true
      by (symmetry; apply Z.ltb_lt; lia).
    cbv zeta.
    replace (retry_delay cfg <? 0)%Z with false by (symmetry; apply Z.ltb_ge; lia).
    rewrite (IH m (S a) (S c)); try lia.
    + replace (S c + k)%nat with (c + S k)%nat by lia.
      replace (S (S r) + 2 * k)%nat with (r + 2 * S k)%nat by lia.
      cbn [failed_rounds].
      replace (Z.of_nat (S a)) with (Z.of_nat a + 1)%Z by lia.
      now rewrite <- !app_assoc.
    + intros i Hi. replace (S c + i)%nat with (c + S i)%nat by lia.
      apply Hbefore. lia.
    + now replace (S c + k)%nat with (c + S k)%nat by lia.
Qed.

End Steps.

Lemma run_with_retry_log
    (cfg : config) (question system_prompt : string)
    (use_tools : bool) (mcp_servers : pyval) (w : world) :
  let kwargs := request_kwargs cfg question system_prompt use_tools mcp_servers in
  let run := _run_with_retry cfg question system_prompt use_tools mcp_servers w in
  exists evs,
    log run.2 = (log w ++ evs)%list /\
    calls run.2 = (calls w + length (created evs))%nat /\
    (length (created evs) <= Z.to_nat (retry_attempts cfg))%nat /\
    Forall (eq kwargs) (created evs) /\
    Forall (eq (retry_delay cfg)) (slept evs) /\
    (length (slept evs) <= length (created evs) - 1)%nat.
Proof.
  intros kwargs run. subst run. unfold _run_with_retry, range.
  destruct w as [f c r l]. cbn [log calls].
  destruct (Z.to_nat (retry_attempts cfg)) as [|m] eqn:Hm.
  - exists []. cbn. rewrite app_nil_r. repeat split; auto; lia.
  - destruct (retry_loop_log cfg question system_prompt use_tools mcp_servers f
                (S m) 0 c r l None ltac:(lia))
      as (evs & Hlog & _ & Hcalls & Hle & Hkw & Hsl & _ & Hlt).
    exists evs. repeat split; auto. specialize (Hlt ltac:(lia)). lia.
Qed.

(** X14.  Whatever the configuration and however the API calls end, the
    number of calls the wrapper makes is at most [retry_attempts] when that
    number is positive and is zero otherwise; every call carries the same
    keyword arguments and every sleep lasts [retry_delay]; when a call is
    made there are fewer sleeps than calls, and when none is made there is no
    sleep. *)
Theorem retry_calls_bounded
    (cfg : config) (question system_prompt : string)
    (use_tools : bool) (mcp_servers : pyval) (w : world) :
  let kwargs := request_kwargs cfg question system_prompt use_tools mcp_servers in
  let run := _run_with_retry cfg question system_prompt use_tools mcp_servers w in
  exists evs,
    log run.2 = (log w ++ evs)%list /\
    calls run.2 = (calls w + length (created evs))%nat /\
    (Z.of_nat (length (created evs)) <= Z.max 0 (retry_attempts cfg))%Z /\
    Forall (eq kwargs) (created evs) /\
    Forall (eq (retry_delay cfg)) (slept evs) /\
    (created evs = [] -> slept evs = []) /\
    (created evs <> [] -> (length (slept evs) < length (created evs))%nat).
Proof.
  intros kwargs run.
  destruct (run_with_retry_log cfg question system_prompt use_tools mcp_servers w)
    as (evs & Hlog & Hcalls & Hle & Hkw & Hsl & Hfew).
  exists evs. split; [exact Hlog |]. split; [exact Hcalls |].
  split; [lia |]. split; [exact Hkw |]. split; [exact Hsl |]. split.
  - intros Hnone. rewrite Hnone in Hfew. cbn [length] in Hfew.
    destruct (slept evs); [reflexivity | cbn [length] in Hfew; lia].
  - intros Hsome. destruct (created evs); [now destruct Hsome | cbn [length] in *; lia].
Qed.

(** X15.  With a number of attempts that is zero or negative the wrapper
    calls nothing and raises the unbound-variable error of its last line. *)
Theorem no_attempt_raises_unbound
    (cfg : config) (question system_prompt : string)
    (use_tools : bool) (mcp_servers : pyval) (w : world) :
  (retry_attempts cfg <= 0)%Z ->
  _run_with_retry cfg question system_prompt use_tools mcp_servers w
  = (Raise (UnboundLocalError "result"), w).
Proof.
  intros Hn. unfold _run_with_retry, range.
  replace (Z.to_nat (retry_attempts cfg)) with 0%nat by lia. reflexivity.
Qed.

Lemma no_attempt_raises_unbound_witness :
  let cfg := _load_config
               (Some {| u_model := None; u_max_tokens := None; u_temperature := None;
                        u_baseline_system_prompt := None;
                        u_togomcp_system_prompt := None; u_timeout := None;
                        u_retry_attempts := Some 0%Z; u_retry_delay := None |}) in
  let w := {| api := fun _ => Raises (Exception_ "RateLimitError" "rate limited");
              calls := 0; reads := 0; log := [] |} in
  (retry_attempts cfg <= 0)%Z /\
  _run_with_retry cfg "What is UniProt?" (baseline_system_prompt cfg) false VNone w
  = (Raise (UnboundLocalError "result"), w).
Proof.
  intros cfg w.
  assert (retry_attempts cfg <= 0)%Z as Hn by (cbn; lia).
  split; [exact Hn |].
  exact (no_attempt_raises_unbound cfg "What is UniProt?" (baseline_system_prompt cfg)
           false VNone w Hn).
Defined.

(** X16.  An exception outside [Exception] ends the retries: with a delay
    that is not negative and more than [k] attempts configured, when the
    first [k] attempts fail and attempt [k] is interrupted, the wrapper
    raises that exception after [k + 1] calls and [k] sleeps, and calls
    nothing more. *)
Theorem interrupt_ends_retries
    (cfg : config) (question system_prompt : string)
    (use_tools : bool) (mcp_servers : pyval) (w : world) (e : exn) (k : nat) :
  (0 <= retry_delay cfg)%Z ->
  (Z.of_nat k < retry_attempts cfg)%Z ->
  (forall i, (i < k)%nat -> failed (api w (calls w + i))) ->
  api w (calls w + k) = Raises e ->
  is_Exception e = false ->
  let kwargs := request_kwargs cfg question system_prompt use_tools mcp_servers in
  let run := _run_with_retry cfg question system_prompt use_tools mcp_servers w in
  run.1 = Raise e /\
  calls run.2 = (calls w + S k)%nat /\
  log run.2 = (log w ++ failed_rounds kwargs (retry_delay cfg) 0 k
                 ++ [EvCreate kwargs])%list.
Proof.
  intros Hd Hk Hbefore Hat He kwargs run. subst run.
  unfold _run_with_retry, range. destruct w as [f c r l].
  cbn [api calls log] in *.
  rewrite (retry_loop_interrupted cfg question system_prompt use_tools mcp_servers
             f e k Hd He (Z.to_nat (retry_attempts cfg)) 0 c r l None);
    [|lia|lia|exact Hbefore|exact Hat].
  cbn [fst snd calls log]. repeat split. lia.
Qed.

Lemma interrupt_ends_retries_witness :
  let cfg := default_config in
  let w := {| api := fun i => match i with
                              | 0%nat => Raises (Exception_ "RateLimitError" "rate limited")
                              | _ => Raises KeyboardInterrupt
                              end;
              calls := 0; reads := 0; log := [] |} in
  let kwargs := request_kwargs cfg "What is UniProt?" (baseline_system_prompt cfg)
                  false VNone in
  let run := _run_with_retry cfg "What is UniProt?" (baseline_system_prompt cfg)
               false VNone w in
  (0 <= retry_delay cfg)%Z /\
  (Z.of_nat 1 < retry_attempts cfg)%Z /\
  api w (calls w + 1) = Raises KeyboardInterrupt /\
  run.1 = Raise KeyboardInterrupt /\
  calls run.2 = 2%nat /\
  log run.2 = [EvCreate kwargs; EvRetryNotice 1 2; EvSleep 2; EvCreate kwargs].
Proof.
  intros cfg w kwargs run.
  assert (0 <= retry_delay cfg)%Z as Hd by (cbn; lia).
  assert (Z.of_nat 1 < retry_attempts cfg)%Z as Hk by (cbn; lia).
  assert (forall i, (i < 1)%nat -> failed (api w (calls w + i))) as Hbefore.
  { intros [|i] Hi; [|lia]. eexists. split; reflexivity. }
  assert (api w (calls w + 1) = Raises KeyboardInterrupt) as Hat by reflexivity.
  destruct (interrupt_ends_retries cfg "What is UniProt?" (baseline_system_prompt cfg)
              false VNone w KeyboardInterrupt 1 Hd Hk Hbefore Hat eq_refl)
    as (Hres & Hcalls & Hlog).
  split; [exact Hd |]. split; [exact Hk |]. split; [exact Hat |].
  split; [exact Hres |]. split; [exact Hcalls | exact Hlog].
Defined.

(** X17.  With a negative delay no retry takes place: when more than one
    attempt is configured and the first call fails, the sleep refuses the
    negative length and the wrapper raises that error after one call. *)
Theorem negative_delay_raises_after_first_failure
    (cfg : config) (question system_prompt : string)
    (use_tools : bool) (mcp_servers : pyval) (w : world) :
  (2 <= retry_attempts cfg)%Z ->
  (retry_delay cfg < 0)%Z ->
  failed (api w (calls w)) ->
  let kwargs := request_kwargs cfg question system_prompt use_tools mcp_servers in
  let run := _run_with_retry cfg question system_prompt use_tools mcp_servers w in
  run.1 = Raise (ValueError "sleep length must be non-negative") /\
  calls run.2 = S (calls w) /\
  log run.2 = (log w ++ [EvCreate kwargs; EvRetryNotice 1 (retry_delay cfg)])%list.
Proof.
  intros Hn Hd (e & He & Hcls) kwargs run. subst run.
  unfold _run_with_retry, range. destruct w as [f c r l]. cbn [api calls log] in *.
  destruct (Z.to_nat (retry_attempts cfg)) as [|m] eqn:Hm; [lia |].
  change (seq 0 (S m)) with (0%nat :: seq 1 m). cbn [map].
  rewrite retry_loop_step, He, Hcls.
  replace (Z.of_nat 0 <? retry_attempts cfg - 1)%Z with true
    by (symmetry; apply Z.ltb_lt; lia).
  cbv zeta.
  replace (retry_delay cfg <? 0)%Z with true by (symmetry; apply Z.ltb_lt; lia).
  cbn [fst snd calls log]. rewrite <- app_assoc. now repeat split.
Qed.

Lemma negative_delay_raises_after_first_failure_witness :
  let cfg := _load_config
               (Some {| u_model := None; u_max_tokens := None; u_temperature := None;
                        u_baseline_system_prompt := None;
                        u_togomcp_system_prompt := None; u_timeout := None;
                        u_retry_attempts := None; u_retry_delay := Some (-1)%Z |}) in
  let w := {| api := fun _ => Raises (Exception_ "RateLimitError" "rate limited");
              calls := 0; reads := 0; log := [] |} in
  let run := _run_with_retry cfg "What is UniProt?" (baseline_system_prompt cfg)
               false VNone w in
  (2 <= retry_attempts cfg)%Z /\
  (retry_delay cfg < 0)%Z /\
  failed (api w (calls w)) /\
  run.1 = Raise (ValueError "sleep length must be non-negative") /\
  calls run.2 = 1%nat.
Proof.
  intros cfg w run.
  assert (2 <= retry_attempts cfg)%Z as Hn by (cbn; lia).
  assert (retry_delay cfg < 0)%Z as Hd by (cbn; lia).
  assert (failed (api w (calls w))) as Hf by (eexists; split; reflexivity).
  destruct (negative_delay_raises_after_first_failure cfg "What is UniProt?"
              (baseline_system_prompt cfg) false VNone w Hn Hd Hf)
    as (Hres & Hcalls & _).
  split; [exact Hn |]. split; [exact Hd |]. split; [exact Hf |].
  split; [exact Hres | exact Hcalls].
Defined.

(** X18.  One call of [_make_api_call] is one call of the API, however it
    ends: the call counter goes up by one, the log gains that call and
    nothing else, and the clock is read twice, or once when the call is
    interrupted. *)
Theorem api_call_calls_once
    (cfg : config) (question system_prompt : string)
    (use_tools : bool) (mcp_servers : pyval) (w : world) :
  let kwargs := request_kwargs cfg question system_prompt use_tools mcp_servers in
  let run := _make_api_call cfg question system_prompt use_tools mcp_servers w in
  calls run.2 = S (calls w) /\
  log run.2 = (log w ++ [EvCreate kwargs])%list /\
  api run.2 = api w /\
  reads run.2 = match run.1 with
                | Ok _ => S (S (reads w))
                | Raise _ => S (reads w)
                end.
Proof.
  intros kwargs run. subst run. destruct w as [f c r l].
  rewrite make_api_call_run. cbn [api calls reads log]. fold kwargs.
  destruct (f c) as [resp|e]; [now repeat split |].
  now destruct (is_Exception e).
Qed.

Lemma text_content_skips (a b : list block) (type : string) :
  text_content (a ++ OtherBlock type :: b) = text_content (a ++ b).
Proof. unfold text_content. now rewrite !flat_map_app. Qed.

Lemma tool_uses_skips (a b : list block) (type : string) :
  tool_uses (a ++ OtherBlock type :: b) = tool_uses (a ++ b).
Proof. unfold tool_uses. now rewrite !flat_map_app. Qed.

(** X19.  A content block that is neither text nor a tool use leaves no
    trace: the result dictionary is the same as for the response without
    that block. *)
Theorem unknown_block_ignored
    (a b : list block) (type : string) (reason : pyval) (tokens_in tokens_out : Z)
    (elapsed_time : pyfloat) :
  success_dict {| content := a ++ OtherBlock type :: b; stop_reason := reason;
                  input_tokens := tokens_in; output_tokens := tokens_out |}
    elapsed_time
  = success_dict {| content := a ++ b; stop_reason := reason;
                    input_tokens := tokens_in; output_tokens := tokens_out |}
      elapsed_time.
Proof.
  unfold success_dict. cbn [content stop_reason input_tokens output_tokens].
  now rewrite text_content_skips, tool_uses_skips.
Qed.

Lemma base_kwargs_system (cfg : config) (question system_prompt : string) :
  base_kwargs cfg question system_prompt !! "system" = Some (VStr system_prompt) /\
  base_kwargs cfg question system_prompt !! "mcp_servers" = None /\
  base_kwargs cfg question system_prompt !! "messages"
  = Some (VList [VDict (<["role" := VStr "user"]> (<["content" := VStr question]> ∅))]).
Proof. unfold base_kwargs. repeat split; now lookup_key. Qed.

(** X20.  A baseline test never offers tools: every API call it makes has
    the baseline system prompt, the question as its one user message, and no
    [mcp_servers] argument. *)
Theorem baseline_test_sends_no_servers (cfg : config) (question_text : string) (w : world) :
  let run := run_baseline_test cfg question_text w in
  exists evs,
    log run.2 = (log w ++ evs)%list /\
    Forall (fun kwargs =>
              kwargs !! "mcp_servers" = None /\
              kwargs !! "system" = Some (VStr (baseline_system_prompt cfg)) /\
              kwargs !! "messages"
              = Some (VList [VDict (<["role" := VStr "user"]>
                                    (<["content" := VStr question_text]> ∅))]))
           (created evs).
Proof.
  intros run. subst run. unfold run_baseline_test.
  destruct (run_with_retry_log cfg question_text (baseline_system_prompt cfg)
              false VNone w) as (evs & Hlog & _ & _ & Hkw & _).
  exists evs. split; [exact Hlog |].
  apply (Forall_impl _ _ _ Hkw). intros kwargs <-.
  unfold request_kwargs. cbn [andb].
  destruct (base_kwargs_system cfg question_text (baseline_system_prompt cfg))
    as (Hs & Hm & Hq).
  now repeat split.
Qed.

(** X21.  A TogoMCP test that is given no server list offers the one
    TogoMCP server of the source in every API call it makes, with the
    TogoMCP system prompt. *)
Theorem togomcp_test_default_server (cfg : config) (question_text : string) (w : world) :
  let run := run_togomcp_test cfg question_text VNone w in
  exists evs,
    log run.2 = (log w ++ evs)%list /\
    Forall (fun kwargs =>
              kwargs !! "mcp_servers" = Some default_mcp_servers /\
              kwargs !! "system" = Some (VStr (togomcp_system_prompt cfg)))
           (created evs).
Proof.
  intros run. subst run. unfold run_togomcp_test.
  destruct (run_with_retry_log cfg question_text (togomcp_system_prompt cfg)
              true default_mcp_servers w) as (evs & Hlog & _ & _ & Hkw & _).
  exists evs. split; [exact Hlog |].
  apply (Forall_impl _ _ _ Hkw). intros kwargs <-.
  unfold request_kwargs. cbn [andb truthy default_mcp_servers].
  split; [apply lookup_insert_eq |].
  rewrite lookup_insert_ne by discriminate.
  apply (base_kwargs_system cfg question_text (togomcp_system_prompt cfg)).
Qed.

(** X22.  An empty server list switches the tools off: a TogoMCP test given
    the empty list runs exactly as a test without tools under the TogoMCP
    system prompt. *)
Theorem togomcp_test_empty_list_is_toolless
    (cfg : config) (question_text : string) (w : world) :
  run_togomcp_test cfg question_text (VList []) w
  = _run_with_retry cfg question_text (togomcp_system_prompt cfg) false VNone w.
Proof. reflexivity. Qed.

End RetryFacts.

(** ** The endpoint table with the order of its keys *)

Module OrderedTableFacts.
Import Py Server KeySpec KeyFacts EndpointTable TableSpec OrderedTable.

Lemma dict_set_to_map (d : list (string * string)) (k v : string) :
  (list_to_map (dict_set d k v) : gmap string string) = <[k := v]> (list_to_map d).
Proof.
  induction d as [|[k' v'] d IH]; [reflexivity |].
  cbn [dict_set]. destruct (String.eqb_spec k' k) as [->|Hne].
  - cbn [list_to_map foldr]. now rewrite insert_insert_eq.
  - cbn [list_to_map foldr]. fold (list_to_map (M := gmap string string) (dict_set d k v)).
    fold (list_to_map (M := gmap string string) d).
    rewrite IH. now apply insert_insert_ne.
Qed.

(** The two renderings of the loop agree: the items of the ordered one are
    the bindings of the mapping. *)
Lemma load_rows_items_agree (rows : list (list string)) :
  forall items,
    load_rows rows (list_to_map items)
    = match load_rows_items rows items with
      | Ok items' => Ok (list_to_map items')
      | Raise e => Raise e
      end.
Proof.
  induction rows as [|row rows IH]; intros items; [reflexivity |].
  destruct row as [|name [|url [|? ?]]]; try reflexivity.
  cbn [load_rows load_rows_items]. now rewrite <- dict_set_to_map, IH.
Qed.

(** The keys after an assignment. *)
Lemma dict_set_keys (d : list (string * string)) (k v : string) :
  (dict_set d k v).*1 = if decide (k ∈ d.*1) then d.*1 else (d.*1 ++ [k])%list.
Proof.
  induction d as [|[k' v'] d IH]; [reflexivity |].
  cbn [dict_set]. rewrite !fmap_cons. cbn [fst].
  destruct (String.eqb_spec k' k) as [->|Hne].
  - rewrite decide_True by (apply elem_of_cons; now left). reflexivity.
  - rewrite fmap_cons, IH. cbn [fst].
    destruct (decide (k ∈ d.*1)) as [Hin|Hout].
    + rewrite decide_True by (apply elem_of_cons; now right). reflexivity.
    + rewrite decide_False; [reflexivity |].
      intros Hin. apply elem_of_cons in Hin as [->|Hin]; [now destruct Hne | auto].
Qed.

Lemma first_occurrences_elem (l : list string) (x : string) :
  x ∈ first_occurrences l <-> x ∈ l.
Proof.
  induction l as [|y l IH]; [reflexivity |].
  cbn [first_occurrences]. rewrite !elem_of_cons, list_elem_of_filter, IH.
  destruct (decide (x = y)); intuition.
Qed.

Lemma first_occurrences_NoDup (l : list string) : NoDup (first_occurrences l).
Proof.
  induction l as [|y l IH]; [constructor |].
  cbn [first_occurrences]. apply NoDup_cons. split.
  - rewrite list_elem_of_filter. now intros [Hne _].
  - now apply NoDup_filter.
Qed.

Lemma load_rows_items_keys (rows : list (list string)) :
  Forall two_columns rows ->
  forall items, exists items',
    load_rows_items rows items = Ok items' /\
    items'.*1 = (items.*1 ++
                 filter (fun y => y ∉ items.*1) (first_occurrences (row_key <$> rows)))%list.
Proof.
  induction 1 as [|row rows Hrow _ IH]; intros items.
  - exists items. split; [reflexivity |]. cbn. now rewrite app_nil_r.
  - destruct row as [|name [|url [|? ?]]]; try discriminate Hrow.
    cbn [load_rows_items].
    destruct (IH (dict_set items (canonical_key name) url)) as (items' & Hload & Hkeys).
    exists items'. split; [exact Hload |].
    rewrite Hkeys, dict_set_keys, fmap_cons. cbn [row_key first_occurrences].
    set (k := canonical_key name). set (fo := first_occurrences (row_key <$> rows)).
    destruct (decide (k ∈ items.*1)) as [Hin|Hout].
    + rewrite filter_cons_False by (intros Hn; exact (Hn Hin)).
      f_equal. rewrite list_filter_filter. apply list_filter_iff.
      intros y. split; [intros Hy; split; [exact Hy |] | now intros [Hy _]].
      intros ->. now apply Hy.
    + rewrite filter_cons_True by exact Hout.
      rewrite <- app_assoc. cbn [app]. do 2 f_equal.
      rewrite list_filter_filter. apply list_filter_iff.
      intros y. rewrite elem_of_app, elem_of_cons, elem_of_nil. split.
      * intros Hy. split; [intros Hin; apply Hy; now left |].
        intros ->. apply Hy. right. now left.
      * intros [Hy Hne] [Hin|[->|[]]]; [now apply Hy | now apply Hne].
Qed.

Lemma filter_not_in_nil (l : list string) :
  filter (fun y => y ∉ ([] : list string)) l = l.
Proof.
  induction l as [|y l IH]; [reflexivity |].
  rewrite filter_cons_True by apply not_elem_of_nil. now f_equal.
Qed.

(** X24.  On a well-formed table the description of the database names
    lists the keys of the rows, each once, in the order in which they first
    appear in the file. *)
Theorem description_lists_keys_in_file_order
    (header : list string) (rows : list (list string)) :
  Forall two_columns rows ->
  exists items,
    load_sparql_endpoints_items (header :: rows) = Ok items /\
    items.*1 = first_occurrences (row_key <$> rows) /\
    NoDup items.*1 /\
    DBNAME_DESCRIPTION items
    = "Database name: One of " ++
      Harness.str_join ", " (first_occurrences (row_key <$> rows)).
Proof.
  intros Hwf. cbn [load_sparql_endpoints_items].
  destruct (load_rows_items_keys rows Hwf []) as (items & Hload & Hkeys).
  assert (items.*1 = first_occurrences (row_key <$> rows)) as Hk.
  { rewrite Hkeys. cbn [fmap list_fmap app]. apply filter_not_in_nil. }
  exists items. split; [exact Hload |]. split; [exact Hk |]. split.
  - rewrite Hk. apply first_occurrences_NoDup.
  - unfold DBNAME_DESCRIPTION. now rewrite <- Hk.
Qed.

Lemma description_lists_keys_in_file_order_witness :
  Forall two_columns [["UniProt KB"; "https://example.org/uniprot"];
                      ["Pub-Chem"; "https://example.org/pubchem"];
                      ["uniprot kb"; "https://example.org/mirror"]] /\
  exists items,
    load_sparql_endpoints_items
      [["Database"; "Endpoint"]; ["UniProt KB"; "https://example.org/uniprot"];
       ["Pub-Chem"; "https://example.org/pubchem"];
       ["uniprot kb"; "https://example.org/mirror"]] = Ok items /\
    items.*1 = ["uniprot_kb"; "pubchem"] /\
    DBNAME_DESCRIPTION items = "Database name: One of uniprot_kb, pubchem".
Proof.
  assert (Forall two_columns [["UniProt KB"; "https://example.org/uniprot"];
                              ["Pub-Chem"; "https://example.org/pubchem"];
                              ["uniprot kb"; "https://example.org/mirror"]]) as Hwf
    by (repeat constructor).
  split; [exact Hwf |].
  destruct (description_lists_keys_in_file_order ["Database"; "Endpoint"] _ Hwf)
    as (items & Hload & Hk & _ & Hdesc).
  exists items. split; [exact Hload |]. split; [exact Hk | exact Hdesc].
Defined.

End OrderedTableFacts.
